(** * Scoped UUIDs (package uuid, src/uuid.go)

    A shallow embedding of the package and the properties of its
    specification.  The package keeps one global, [setScopes], a map from
    scope names to pointers into the constant table [scopes]; every function
    that reads it takes it as its first argument here, and [SetScopes], the
    only function that assigns it, returns its new value.

    Conventions.
    - A Go [byte] is a [Byte.byte]; bit operations go through [Z].
    - A Go [string] is a [string] (a sequence of 8-bit characters).
    - A Go [error] is the message it was made from ([errors.New msg]);
      [None] is the nil error.
    - [*UUID] is [option UUID], [None] being the nil pointer.
    - A pointer [&scopes[i]] is the index [i]; dereferencing reads the table.
    - A run-time panic is the [Panics] outcome. *)

From Stdlib Require Import ZArith List Ascii String Lia.
From Stdlib.Strings Require Import Byte.
From stdpp Require Import base gmap strings list.

(** ** Bytes *)

Definition Z_of_byte (b : byte) : Z := Z.of_N (Byte.to_N b).

(** Go's conversion [byte(x)]: the low eight bits. *)
Definition byte_of_Z (z : Z) : byte :=
  match Byte.of_N (Z.to_N (z mod 256)) with
  | Some b => b
  | None => x00
  end.

(** [a | b], [a & b] and [a &^ b] on bytes. *)
Definition byte_or (a b : byte) : byte :=
  byte_of_Z (Z.lor (Z_of_byte a) (Z_of_byte b)).

Definition byte_and (a b : byte) : byte :=
  byte_of_Z (Z.land (Z_of_byte a) (Z_of_byte b)).

Definition byte_andnot (a b : byte) : byte :=
  byte_of_Z (Z.ldiff (Z_of_byte a) (Z_of_byte b)).

(** [copy(dst, src)]: the first [min (len dst) (len src)] elements of [dst]
    are replaced, the rest of [dst] stays. *)
Definition copy (dst src : list byte) : list byte :=
  firstn (length dst) src ++ skipn (length src) dst.

(** ** The data model *)

Record UUID := mkUUID {
  scope : string;
  hex : string;
  bin : list byte   (* [16]byte *)
}.

(** The zero value of the struct, what [var uuid UUID] declares. *)
Definition zeroUUID : UUID := mkUUID "" "" (repeat x00 16).

Definition error := string.

Definition ErrorMissingScope : error := "The provided scope is not known.".
Definition ErrorBadScope : error := "The provided scope is not supported.".
Definition ErrorBadString : error := "The provided string is not a UUID.".
Definition ErrorOutOfScopes : error := "Limit of scopes exeeded.".
Definition ErrorMalformattedHex : error :=
  "The Hex representation of the UUID is malformatted.".
Definition ErrorUninitializedUUID : error :=
  "The provided pointer refers to an uninitialized struct.".
Definition ErrorScopesAlreadySet : error := "Scopes can only be set once.".

(** [scopes]: the bytes that can be used to set the binary scope. *)
Definition scopes : list byte :=
  [ x00; x04; x08; x0c;
    x10; x14; x18; x1c;
    x20; x24; x28; x2c;
    x30; x34; x38; x3c;
    x40; x44; x48; x4c;
    x50; x54; x58; x5c;
    x60; x64; x68; x6c;
    x70; x74; x78; x7c;
    x80; x84; x88; x8c;
    x90; x94; x98; x9c;
    xa0; xa4; xa8; xac;
    xb0; xb4; xb8; xbc;
    xc0; xc4; xc8; xcc;
    xd0; xd4; xd8; xdc;
    xe0; xe4; xe8; xec;
    xf0; xf4; xf8; xfc ].

(** The global [setScopes]: [None] is the nil map, and the value bound to a
    name is the index of the [scopes] entry its pointer refers to. *)
Abbreviation registry := (option (gmap string nat)).

(** [*p] for [p = &scopes[i]]. *)
Definition deref_scopes (i : nat) : byte := nth i scopes x00.

(** [setScopes[name]]: on a nil map, as on a missing key, the nil pointer. *)
Definition registry_lookup (setScopes : registry) (name : string) : option nat :=
  match setScopes with
  | None => None
  | Some m => m !! name
  end.

(** ** Outcomes of code that may panic *)

Inductive panic := NilDereference | SliceBoundsOutOfRange.

Inductive outcome (A : Type) :=
| Returns (a : A)
| Panics (p : panic).
Arguments Returns {A} a.
Arguments Panics {A} p.

Definition obind {A B} (o : outcome A) (k : A -> outcome B) : outcome B :=
  match o with
  | Returns a => k a
  | Panics p => Panics p
  end.

Notation "'do' x <~ o ; k" := (obind o (fun x => k))
  (at level 10, x name, o at level 100, k at level 200).

(** ** Library functions the package calls *)

Module fmt.

(** The digit table of package fmt, [ldigits]. *)
Definition ldigits : string := "0123456789abcdef".

Definition digit (n : Z) : ascii :=
  match String.get (Z.to_nat n) ldigits with
  | Some c => c
  | None => "0"%char
  end.

(** The verb [%x] on a byte slice: two lower-case digits per byte. *)
Fixpoint x (bs : list byte) : string :=
  match bs with
  | [] => ""
  | b :: rest =>
      String (digit (Z.shiftr (Z_of_byte b) 4))
        (String (digit (Z.land (Z_of_byte b) 15)) (x rest))
  end.

End fmt.

Module hexpkg.

(** encoding/hex: the value of a hex digit, either case. *)
Definition fromHexChar (c : ascii) : option Z :=
  let n := Z.of_N (N_of_ascii c) in
  if (48 <=? n)%Z && (n <=? 57)%Z then Some (n - 48)%Z
  else if (97 <=? n)%Z && (n <=? 102)%Z then Some (n - 97 + 10)%Z
  else if (65 <=? n)%Z && (n <=? 70)%Z then Some (n - 65 + 10)%Z
  else None.

(** [hex.DecodeString]: [None] stands for a non-nil error (odd length or a
    character that is no hex digit). *)
Fixpoint DecodeString (s : string) : option (list byte) :=
  match s with
  | EmptyString => Some []
  | String _ EmptyString => None
  | String p (String q rest) =>
      match fromHexChar p, fromHexChar q, DecodeString rest with
      | Some a, Some b, Some bs =>
          Some (byte_of_Z (Z.lor (Z.shiftl a 4) b) :: bs)
      | _, _, _ => None
      end
  end.

End hexpkg.

(** [strings.Replace(s, "-", "", -1)]: every hyphen removed. *)
Fixpoint strings_Replace_hyphen (s : string) : string :=
  match s with
  | EmptyString => EmptyString
  | String c rest =>
      if Ascii.eqb c "-" then strings_Replace_hyphen rest
      else String c (strings_Replace_hyphen rest)
  end.

(** *** Regular expressions

    The fragment of package regexp's syntax that [Read] uses: character
    classes, literal characters, counted repetition and concatenation.  No
    expression of this fragment matches two different prefixes of a text, so
    matching returns the one remainder. *)
Module regexp.

Inductive t :=
| Class (ranges : list (ascii * ascii))
| Lit (c : ascii)
| Rep (r : t) (n : nat)
| Cat (r1 r2 : t).

Definition in_range (c : ascii) (rg : ascii * ascii) : bool :=
  (N_of_ascii (fst rg) <=? N_of_ascii c)%N && (N_of_ascii c <=? N_of_ascii (snd rg))%N.

Definition in_class (c : ascii) (ranges : list (ascii * ascii)) : bool :=
  existsb (in_range c) ranges.

Definition and_then (o : option string) (f : string -> option string) :=
  match o with
  | Some s => f s
  | None => None
  end.

Fixpoint match_prefix (r : t) (s : string) : option string :=
  match r with
  | Class ranges =>
      match s with
      | String c rest => if in_class c ranges then Some rest else None
      | EmptyString => None
      end
  | Lit c =>
      match s with
      | String c' rest => if Ascii.eqb c c' then Some rest else None
      | EmptyString => None
      end
  | Rep r n => Nat.iter n (fun o => and_then o (match_prefix r)) (Some s)
  | Cat r1 r2 => and_then (match_prefix r1 s) (match_prefix r2)
  end.

(** [MatchString] of the expression [^r$]: the whole text is matched. *)
Definition MatchString (r : t) (s : string) : bool :=
  match match_prefix r s with
  | Some EmptyString => true
  | _ => false
  end.

End regexp.

(** [[0-9a-f]] *)
Definition lower_hex : regexp.t :=
  regexp.Class [("0"%char, "9"%char); ("a"%char, "f"%char)].

Definition hyphen : regexp.t := regexp.Lit "-".

(** [^[0-9a-f]{8}-[0-9a-f]{4}-[0-9a-f]{4}-[0-9a-f]{4}-[0-9a-f]{12}$] *)
Definition canonical_re : regexp.t :=
  regexp.Cat (regexp.Rep lower_hex 8) (regexp.Cat hyphen
  (regexp.Cat (regexp.Rep lower_hex 4) (regexp.Cat hyphen
  (regexp.Cat (regexp.Rep lower_hex 4) (regexp.Cat hyphen
  (regexp.Cat (regexp.Rep lower_hex 4) (regexp.Cat hyphen
  (regexp.Rep lower_hex 12)))))))).

(** ** The package *)

(** [a[lo:hi]] on the array [uuid.bin], with constant bounds within 16. *)
Definition sub (lo hi : nat) (a : list byte) : list byte :=
  firstn (hi - lo) (skipn lo a).

(** [fmt.Sprintf("%x-%x-%x-%x-%x", g1, g2, g3, g4, g5)] *)
Definition Sprintf_canonical (g1 g2 g3 g4 g5 : list byte) : string :=
  fmt.x g1 +:+ "-" +:+ fmt.x g2 +:+ "-" +:+ fmt.x g3 +:+ "-" +:+ fmt.x g4
    +:+ "-" +:+ fmt.x g5.

(** [uuid.bin[0]] *)
Definition bin0 (uuid : UUID) : byte := nth 0 (bin uuid) x00.

(** *** Accessors *)

Definition Scope (uuid : option UUID) : outcome string :=
  match uuid with
  | None => Returns ""
  | Some u => Returns (scope u)
  end.

Definition Bin (uuid : option UUID) : outcome (list byte) :=
  let panicHealer := repeat x00 16 in
  match uuid with
  | None => Returns panicHealer
  | Some u => Returns (bin u)
  end.

Definition Hex (uuid : option UUID) : outcome string :=
  match uuid with
  | None => Returns ""
  | Some u => Returns (hex u)
  end.

(** *** ScopeMatches

    The loop reads [uuid.scope] once per element of the argument (which the
    source also calls [scopes]); reading a field through the nil pointer
    panics. *)
Fixpoint ScopeMatches (uuid : option UUID) (scopes : list string) : outcome bool :=
  match scopes with
  | [] => Returns false
  | s :: rest =>
      match uuid with
      | None => Panics NilDereference
      | Some u =>
          if String.eqb (scope u) s then Returns true
          else ScopeMatches uuid rest
      end
  end.

(** *** readScope *)

(** The loop [for scope = range setScopes]: the first entry, in the order
    the map is walked, whose byte equals [tmpByte].  Go leaves the order
    open; [range_order_irrelevant] below shows that no order changes the
    result on a map that [SetScopes] built. *)
Definition range_find (tmpByte : byte) (entries : list (string * nat)) : option string :=
  match find (fun e => Byte.eqb tmpByte (deref_scopes (snd e))) entries with
  | Some e => Some (fst e)
  | None => None
  end.

Definition readScope (setScopes : registry) (uuid : UUID) : UUID * option error :=
  match hexpkg.DecodeString (strings_Replace_hyphen (hex uuid)) with
  | None => (uuid, Some ErrorBadString)
  | Some tmpBytes =>
      let uuid := mkUUID (scope uuid) (hex uuid) (copy (bin uuid) tmpBytes) in
      let tmpByte := byte_andnot (bin0 uuid) x03 in
      match setScopes with
      | None => (uuid, Some ErrorMissingScope)
      | Some m =>
          let uuid :=
            match range_find tmpByte (map_to_list m) with
            | Some name => mkUUID name (hex uuid) (bin uuid)
            | None => uuid
            end in
          if String.eqb (scope uuid) "" then (uuid, Some ErrorBadScope)
          else (uuid, None)
      end
  end.

(** *** Scan *)

(** A [[]byte]: the elements from the slice's start to the end of its
    backing array, and its length; the capacity is the number of those
    elements. *)
Record slice := mkSlice {
  backing : list byte;
  slice_len : nat
}.

Definition cap (s : slice) : nat := length (backing s).

Definition slice_wf (s : slice) : Prop := slice_len s <= cap s.

(** A slice with no spare capacity, such as [[]byte{...}] or [[]byte(str)]. *)
Definition slice_of (bs : list byte) : slice := mkSlice bs (length bs).

(** The slice expression [s[lo:hi]] on a slice: in range when
    [0 <= lo <= hi <= cap(s)] (The Go Programming Language Specification,
    Slice expressions: for slices, the upper index bound is the slice
    capacity cap(a) rather than the length). *)
Definition slice_expr (s : slice) (lo hi : nat) : outcome (list byte) :=
  if (lo <=? hi) && (hi <=? cap s) then Returns (sub lo hi (backing s))
  else Panics SliceBoundsOutOfRange.

(** The dynamic types a [driver.Value] passed as [src interface{}] has. *)
Inductive value :=
| VBytes (s : slice)
| VString (s : string)
| VInt64 (z : Z)
| VBool (b : bool)
| VNil.

(** The result is the struct the receiver points to afterwards, and the
    error returned. *)
Definition Scan (setScopes : registry) (uuid : option UUID) (src : value)
  : outcome (option UUID * option error) :=
  match src with
  | VBytes tmpByte =>
      do g1 <~ slice_expr tmpByte 0 4;
      do g2 <~ slice_expr tmpByte 4 6;
      do g3 <~ slice_expr tmpByte 6 8;
      do g4 <~ slice_expr tmpByte 8 10;
      do g5 <~ slice_expr tmpByte 10 16;
      match uuid with
      | None => Panics NilDereference
      | Some u =>
          let u := mkUUID (scope u) (Sprintf_canonical g1 g2 g3 g4 g5) (bin u) in
          let (u, err) := readScope setScopes u in
          Returns (Some u, err)
      end
  | _ => Returns (uuid, Some "Type assertion .([]byte) failed.")
  end.

(** *** New *)

(** What one call [crand.Read(b)] did: the bytes it stored into [b], from
    the start, and the error it returned. *)
Record crand := mkCrand {
  crand_bytes : list byte;
  crand_err : option string
}.

Definition crand_Read (rnd : crand) (b : list byte) : list byte * option string :=
  (copy b (crand_bytes rnd), crand_err rnd).

(** [rnd] is the outcome of [crand.Read] and [r] the value of
    [mrand.Intn(4)], a number in [0, 4). *)
Definition New (setScopes : registry) (scope : string) (rnd : crand) (r : Z)
  : option UUID * option error :=
  match registry_lookup setScopes scope with
  | None => (None, Some ErrorMissingScope)
  | Some p =>
      let uuid := zeroUUID in
      match crand_Read rnd (bin uuid) with
      | (_, Some err) => (None, Some ("Error generating new UUID: " +:+ err))
      | (b, None) =>
          let b := <[0 := byte_or (deref_scopes p) (byte_of_Z r)]> b in
          let h := Sprintf_canonical (sub 0 4 b) (sub 4 6 b) (sub 6 8 b)
                     (sub 8 10 b) (sub 10 16 b) in
          (Some (mkUUID scope h b), None)
      end
  end.

(** *** Read *)

Definition Read (setScopes : registry) (input : string) : option UUID * option error :=
  if negb (regexp.MatchString canonical_re input) then (None, Some ErrorBadString)
  else
    let uuid := mkUUID (scope zeroUUID) input (bin zeroUUID) in
    match readScope setScopes uuid with
    | (_, Some _) => (None, Some ErrorBadScope)
    | (uuid, None) => (Some uuid, None)
    end.

(** *** SetScopes *)

(** [newScopes[index]] on a [[64]string].  The array is the list of its
    elements; a list shorter than 64 stands for the array literal with that
    many elements, whose other slots hold the empty string. *)
Definition at64 (newScopes : list string) (index : nat) : string :=
  nth index newScopes "".

(** The loop of [SetScopes], [index] running from 0 to [n - 1]. *)
Definition fill (newScopes : list string) (n : nat) : gmap string nat :=
  fold_left (fun tmpMap index => <[at64 newScopes index := index]> tmpMap)
    (seq 0 n) ∅.

Definition SetScopes (setScopes : registry) (newScopes : list string)
  : registry * option error :=
  match setScopes with
  | Some _ => (setScopes, Some ErrorScopesAlreadySet)
  | None => (Some (fill newScopes 64), None)
  end.

(** A run of the package: [SetScopes] called on each array in turn; the
    registry at the end and the error of each call. *)
Fixpoint SetScopes_calls (setScopes : registry) (calls : list (list string))
  : registry * list (option error) :=
  match calls with
  | [] => (setScopes, [])
  | newScopes :: rest =>
      let (st, err) := SetScopes setScopes newScopes in
      let (st', errs) := SetScopes_calls st rest in
      (st', err :: errs)
  end.

(** The registry once [SetScopes] has been called with [newScopes] on the
    package as it starts. *)
Definition configured (newScopes : list string) : registry :=
  fst (SetScopes None newScopes).

(** ** The canonical text, as the specification words it

    Thirty-six characters: groups of 8, 4, 4, 4 and 12 lower-case
    hexadecimal digits, joined by hyphens. *)

Definition is_lower_hex (c : ascii) : bool :=
  existsb (Ascii.eqb c) (list_ascii_of_string "0123456789abcdef").

Fixpoint all_lower_hex (s : string) : bool :=
  match s with
  | EmptyString => true
  | String c rest => is_lower_hex c && all_lower_hex rest
  end.

Definition hex_group (n : nat) (g : string) : Prop :=
  String.length g = n /\ all_lower_hex g = true.

Definition canonical_text (s : string) : Prop :=
  exists g1 g2 g3 g4 g5,
    hex_group 8 g1 /\ hex_group 4 g2 /\ hex_group 4 g3 /\ hex_group 4 g4
    /\ hex_group 12 g5
    /\ s = g1 +:+ "-" +:+ g2 +:+ "-" +:+ g3 +:+ "-" +:+ g4 +:+ "-" +:+ g5.

(** ** Two calls of [SetScopes] at once

    [SetScopes] takes no lock.  A call is three statements on the shared
    variable and a local one: the test [setScopes != nil], the loop that
    fills the local [tmpMap], and the assignment [setScopes = tmpMap]
    followed by [return nil].  Two goroutines take their statements in the
    order a schedule gives; each statement is one step, which is the most
    that any execution guarantees. *)
Module Race.

Inductive call :=
| AtCheck (newScopes : list string)
| AtLoop (newScopes : list string)
| AtPublish (tmpMap : gmap string nat)
| Returned (err : option error).

Definition step (setScopes : registry) (c : call) : registry * call :=
  match c with
  | AtCheck newScopes =>
      match setScopes with
      | Some _ => (setScopes, Returned (Some ErrorScopesAlreadySet))
      | None => (setScopes, AtLoop newScopes)
      end
  | AtLoop newScopes => (setScopes, AtPublish (fill newScopes 64))
  | AtPublish tmpMap => (Some tmpMap, Returned None)
  | Returned err => (setScopes, Returned err)
  end.

Record world := mkWorld {
  shared : registry;
  first : call;
  second : call
}.

(** [true] lets the first goroutine take a step, [false] the second. *)
Definition sched_step (w : world) (who : bool) : world :=
  if who then
    let (st, c) := step (shared w) (first w) in mkWorld st c (second w)
  else
    let (st, c) := step (shared w) (second w) in mkWorld st (first w) c.

Definition run (w : world) (sched : list bool) : world :=
  fold_left sched_step sched w.

Definition start (names1 names2 : list string) : world :=
  mkWorld None (AtCheck names1) (AtCheck names2).

(** The states a call on [names] goes through. *)
Definition call_of (names : list string) (c : call) : Prop :=
  c = AtCheck names \/ c = AtLoop names \/ c = AtPublish (fill names 64)
  \/ c = Returned None \/ c = Returned (Some ErrorScopesAlreadySet).

Definition returned (c : call) : Prop := exists err, c = Returned err.

(** What holds of every world two calls can reach. *)
Definition inv (names1 names2 : list string) (w : world) : Prop :=
  call_of names1 (first w) /\ call_of names2 (second w)
  /\ match shared w with
     | None => ~ returned (first w) /\ ~ returned (second w)
     | Some m =>
         (m = fill names1 64 /\ first w = Returned None)
         \/ (m = fill names2 64 /\ second w = Returned None)
     end.

End Race.

(** ** A call of [New] beside the two calls

    [New] reads the global twice: in the test [setScopes[scope] == nil] of
    line 195, and again in [*setScopes[scope]] of line 206, after
    [crand.Read].  Each read is one step; the second dereferences the
    pointer it finds, and a name that the map no longer holds gives the nil
    pointer. *)
Module Observer.

Inductive reader :=
| AtTest (scope : string) (rnd : crand) (r : Z)
| AtAssign (scope : string) (rnd : crand) (r : Z)
| Finished (res : outcome (option UUID * option error)).

Definition step (setScopes : registry) (c : reader) : reader :=
  match c with
  | AtTest scope rnd r =>
      match registry_lookup setScopes scope with
      | None => Finished (Returns (None, Some ErrorMissingScope))
      | Some _ => AtAssign scope rnd r
      end
  | AtAssign scope rnd r =>
      match crand_err rnd with
      | Some err =>
          Finished (Returns (None, Some ("Error generating new UUID: " +:+ err)))
      | None =>
          match registry_lookup setScopes scope with
          | None => Finished (Panics NilDereference)
          | Some _ => Finished (Returns (New setScopes scope rnd r))
          end
      end
  | Finished res => Finished res
  end.

(** The goroutines: the two calls of [SetScopes] and the call of [New]. *)
Inductive who := First | Second | Reader.

Record world := mkWorld {
  calls : Race.world;
  new_call : reader
}.

Definition sched_step (w : world) (g : who) : world :=
  match g with
  | First => mkWorld (Race.sched_step (calls w) true) (new_call w)
  | Second => mkWorld (Race.sched_step (calls w) false) (new_call w)
  | Reader => mkWorld (calls w) (step (Race.shared (calls w)) (new_call w))
  end.

Definition run (w : world) (sched : list who) : world :=
  fold_left sched_step sched w.

End Observer.

(** ** Values used in the examples *)

(** The configuration of the package's test: eight names, the other slots
    left empty. *)
Definition myScopes : list string :=
  ["one"; "two"; "three"; "four"; "five"; "six"; "seven"; "eight"].

Definition zero_rnd : crand := mkCrand (repeat x00 16) None.

Definition uuid_five : UUID :=
  mkUUID "five" "13000000-0000-0000-0000-000000000000"
    (x13 :: repeat x00 15).

Definition uuid_empty : UUID :=
  mkUUID "" "fc000000-0000-0000-0000-000000000000"
    (xfc :: repeat x00 15).

(** Sixty-four distinct names: the eight of the test and 56 more. *)
Definition sixty_four_names : list string :=
  myScopes ++ map (fun k => String (ascii_of_nat k) "") (seq 33 56).

Definition all_zero_text : string := "00000000-0000-0000-0000-000000000000".

(** A slice of three bytes cut from a 16-byte buffer: [make([]byte, 3, 16)]. *)
Definition three_of_sixteen : slice := mkSlice (repeat x00 16) 3.

(** ** The remaining functions of the package *)

(** *** Value

    The result is a [driver.Value]: the text as a string, or nil with the
    error. *)
Definition Value (uuid : UUID) : value * option error :=
  if negb (String.length (hex uuid) =? 36) then (VNil, Some ErrorMalformattedHex)
  else (VString (hex uuid), None).

(** *** Scopes

    The loop [for scope = range setScopes] stores the names at [index],
    [index + 1], ... of a [[64]string] that starts out empty.  Storing at
    an index beyond 63 is a run-time panic (index out of range), for which
    [None] stands. *)
Fixpoint Scopes_walk (names : list string) (scopes : list string) (index : nat)
  : option (list string) :=
  match names with
  | [] => Some scopes
  | scope :: rest =>
      if index <? 64 then Scopes_walk rest (<[index := scope]> scopes) (S index)
      else None
  end.

(** [Scopes] when the map is walked in the order [entries]. *)
Definition Scopes_in (entries : list (string * nat)) : option (list string) :=
  Scopes_walk (map fst entries) (repeat EmptyString 64) 0.

Definition Scopes (setScopes : registry) : option (list string) :=
  match setScopes with
  | None => Some (repeat EmptyString 64)
  | Some m => Scopes_in (map_to_list m)
  end.

(** A 16-byte array whose tag, 0x20, the test's configuration binds to no
    name. *)
Definition unbound_bytes : list byte := x20 :: repeat x00 15.

(** The values of the sixteen hexadecimal digits. *)
Definition digit_values : list Z :=
  [0; 1; 2; 3; 4; 5; 6; 7; 8; 9; 10; 11; 12; 13; 14; 15]%Z.

Definition five_text : string := "13000000-0000-0000-0000-000000000000".

Definition uuid_one : UUID := mkUUID "one" all_zero_text (repeat x00 16).

(** * Properties *)

(** ** Bytes and the tag table *)

Section ByteFacts.

Lemma Z_of_byte_range (b : byte) : (0 <= Z_of_byte b < 256)%Z.
Proof. destruct b; vm_compute; split; congruence. Qed.

Lemma byte_of_Z_of_byte (b : byte) : byte_of_Z (Z_of_byte b) = b.
Proof. destruct b; reflexivity. Qed.

(** On a byte, [& 0xFC] and [&^ 0x03] are the same operation. *)
Lemma byte_and_fc_andnot_03 (b : byte) : byte_and b xfc = byte_andnot b x03.
Proof. destruct b; reflexivity. Qed.

(** The table holds the multiples of four, in order. *)
Lemma deref_scopes_val (i : nat) :
  i < 64 -> Z_of_byte (deref_scopes i) = (4 * Z.of_nat i)%Z.
Proof.
  intros Hi.
  do 64 (destruct i as [|i]; [reflexivity|]).
  lia.
Qed.

Lemma scopes_length : length scopes = 64.
Proof. reflexivity. Qed.

Lemma scopes_multiples_of_4 :
  scopes = map (fun k => byte_of_Z (4 * Z.of_nat k)) (seq 0 64).
Proof. reflexivity. Qed.

Lemma deref_scopes_inj (i j : nat) :
  i < 64 -> j < 64 -> deref_scopes i = deref_scopes j -> i = j.
Proof.
  intros Hi Hj Heq.
  apply (f_equal Z_of_byte) in Heq.
  rewrite !deref_scopes_val in Heq by assumption.
  lia.
Qed.

Lemma deref_scopes_In (i : nat) : i < 64 -> In (deref_scopes i) scopes.
Proof. intros Hi. apply nth_In. rewrite scopes_length. exact Hi. Qed.

(** Setting the two low bits of a table entry and clearing them again
    gives the entry back. *)
Lemma tag_survives_jitter (i : nat) (r : Z) :
  i < 64 -> (0 <= r < 4)%Z ->
  byte_andnot (byte_or (deref_scopes i) (byte_of_Z r)) x03 = deref_scopes i.
Proof.
  intros Hi Hr.
  assert (Hcases : r = 0%Z \/ r = 1%Z \/ r = 2%Z \/ r = 3%Z) by lia.
  do 64 (destruct i as [|i];
    [destruct Hcases as [->|[->|[->| ->]]]; reflexivity|]).
  lia.
Qed.

End ByteFacts.

(** ** Formatting and decoding *)

Section HexFacts.

Lemma digit_decodes (b : byte) :
  hexpkg.fromHexChar (fmt.digit (Z.shiftr (Z_of_byte b) 4))
    = Some (Z.shiftr (Z_of_byte b) 4)
  /\ hexpkg.fromHexChar (fmt.digit (Z.land (Z_of_byte b) 15))
    = Some (Z.land (Z_of_byte b) 15)
  /\ byte_of_Z (Z.lor (Z.shiftl (Z.shiftr (Z_of_byte b) 4) 4)
                       (Z.land (Z_of_byte b) 15)) = b.
Proof. destruct b; vm_compute; repeat split. Qed.

(** [hex.DecodeString] undoes [%x]. *)
Lemma DecodeString_x (bs : list byte) :
  hexpkg.DecodeString (fmt.x bs) = Some bs.
Proof.
  induction bs as [|b bs IH]; [reflexivity|].
  destruct (digit_decodes b) as (Hhi & Hlo & Hb).
  cbn [fmt.x hexpkg.DecodeString].
  rewrite Hhi, Hlo, IH, Hb. reflexivity.
Qed.

Lemma append_String (c : ascii) (a b : string) :
  String c a +:+ b = String c (a +:+ b).
Proof. reflexivity. Qed.

Lemma append_Empty (b : string) : "" +:+ b = b.
Proof. reflexivity. Qed.

Lemma append_Empty_r (a : string) : a +:+ "" = a.
Proof.
  induction a as [|c a IH]; [reflexivity|].
  rewrite append_String, IH. reflexivity.
Qed.

Lemma append_length (a b : string) :
  String.length (a +:+ b) = String.length a + String.length b.
Proof.
  induction a as [|c a IH]; [reflexivity|].
  rewrite append_String. cbn [String.length]. rewrite IH. reflexivity.
Qed.

Lemma x_app (a b : list byte) : fmt.x (a ++ b) = fmt.x a +:+ fmt.x b.
Proof.
  induction a as [|c a IH]; [reflexivity|].
  cbn [fmt.x app]. rewrite !append_String, IH. reflexivity.
Qed.

Lemma x_length (bs : list byte) : String.length (fmt.x bs) = 2 * length bs.
Proof.
  induction bs as [|b bs IH]; [reflexivity|].
  cbn [fmt.x String.length length]. rewrite IH. lia.
Qed.

Lemma digit_not_hyphen (b : byte) :
  Ascii.eqb (fmt.digit (Z.shiftr (Z_of_byte b) 4)) "-" = false
  /\ Ascii.eqb (fmt.digit (Z.land (Z_of_byte b) 15)) "-" = false.
Proof. destruct b; vm_compute; split; reflexivity. Qed.

Lemma Replace_hyphen_x (bs : list byte) :
  strings_Replace_hyphen (fmt.x bs) = fmt.x bs.
Proof.
  induction bs as [|b bs IH]; [reflexivity|].
  destruct (digit_not_hyphen b) as (Hhi & Hlo).
  cbn [fmt.x strings_Replace_hyphen].
  rewrite Hhi, Hlo, IH. reflexivity.
Qed.

Lemma Replace_hyphen_app (a b : string) :
  strings_Replace_hyphen (a +:+ b)
  = strings_Replace_hyphen a +:+ strings_Replace_hyphen b.
Proof.
  induction a as [|c a IH]; [reflexivity|].
  rewrite append_String. cbn [strings_Replace_hyphen].
  destruct (Ascii.eqb c "-"); rewrite IH; reflexivity.
Qed.

(** The five groups of a 16-byte array are the array. *)
Lemma groups_cover (b : list byte) :
  length b = 16 ->
  sub 0 4 b ++ sub 4 6 b ++ sub 6 8 b ++ sub 8 10 b ++ sub 10 16 b = b.
Proof.
  intros Hlen.
  do 16 (destruct b as [|? b]; [discriminate Hlen|]).
  destruct b; [reflexivity | discriminate Hlen].
Qed.

(** Stripping the hyphens of the canonical text and decoding gives the
    bytes that were formatted. *)
Lemma decode_Sprintf_canonical (g1 g2 g3 g4 g5 : list byte) :
  hexpkg.DecodeString
    (strings_Replace_hyphen (Sprintf_canonical g1 g2 g3 g4 g5))
  = Some (g1 ++ g2 ++ g3 ++ g4 ++ g5).
Proof.
  unfold Sprintf_canonical.
  rewrite !Replace_hyphen_app, !Replace_hyphen_x.
  change (strings_Replace_hyphen "-") with "".
  rewrite !append_Empty, <- !x_app.
  apply DecodeString_x.
Qed.

End HexFacts.

(** ** The regular expression of [Read] and the canonical grammar *)

Section Grammar.

Import regexp.

Lemma in_class_lower_hex (c : ascii) :
  in_class c [("0"%char, "9"%char); ("a"%char, "f"%char)] = is_lower_hex c.
Proof.
  destruct c as [b0 b1 b2 b3 b4 b5 b6 b7].
  destruct b0, b1, b2, b3, b4, b5, b6, b7; reflexivity.
Qed.

Lemma Cat_eq (r1 r2 : t) (s : string) :
  match_prefix (Cat r1 r2) s = and_then (match_prefix r1 s) (match_prefix r2).
Proof. reflexivity. Qed.

Lemma iter_and_then_None (f : string -> option string) (n : nat) :
  Nat.iter n (fun o => and_then o f) None = None.
Proof. induction n as [|n IH]; [reflexivity|]. rewrite Nat.iter_succ, IH. reflexivity. Qed.

(** A counted repetition matches once, then one time fewer. *)
Lemma Rep_S (r : t) (n : nat) (s : string) :
  match_prefix (Rep r (S n)) s
  = and_then (match_prefix r s) (match_prefix (Rep r n)).
Proof.
  cbn [match_prefix]. rewrite Nat.iter_succ_r.
  cbn [and_then].
  destruct (match_prefix r s) as [s'|]; cbn [and_then]; [reflexivity|].
  apply iter_and_then_None.
Qed.

Lemma Rep_0 (r : t) (s : string) : match_prefix (Rep r 0) s = Some s.
Proof. reflexivity. Qed.

Lemma lower_hex_eq (s : string) :
  match_prefix lower_hex s
  = match s with
    | String c rest => if is_lower_hex c then Some rest else None
    | EmptyString => None
    end.
Proof.
  destruct s as [|c rest]; [reflexivity|].
  unfold lower_hex. cbn [match_prefix]. rewrite in_class_lower_hex. reflexivity.
Qed.

Lemma hyphen_eq (s : string) :
  match_prefix hyphen s
  = match s with
    | String c rest => if Ascii.eqb "-" c then Some rest else None
    | EmptyString => None
    end.
Proof. destruct s; reflexivity. Qed.

Lemma Rep_lower_hex_complete (n : nat) (g rest : string) :
  hex_group n g -> match_prefix (Rep lower_hex n) (g +:+ rest) = Some rest.
Proof.
  revert g. induction n as [|n IH]; intros g [Hlen Hall].
  - destruct g; [reflexivity | discriminate Hlen].
  - destruct g as [|c g]; [discriminate Hlen|].
    cbn [String.length all_lower_hex] in Hlen, Hall.
    apply andb_prop in Hall as [Hc Hg].
    rewrite Rep_S, append_String, lower_hex_eq, Hc. cbn [and_then].
    apply IH. split; [lia | exact Hg].
Qed.

Lemma Rep_lower_hex_sound (n : nat) (s rest : string) :
  match_prefix (Rep lower_hex n) s = Some rest ->
  exists g, hex_group n g /\ s = g +:+ rest.
Proof.
  revert s. induction n as [|n IH]; intros s Hm.
  - rewrite Rep_0 in Hm. injection Hm as ->.
    exists "". repeat split.
  - rewrite Rep_S, lower_hex_eq in Hm.
    destruct s as [|c s]; [discriminate Hm|].
    destruct (is_lower_hex c) eqn:Hc; [|discriminate Hm].
    cbn [and_then] in Hm.
    destruct (IH _ Hm) as (g & [Hlen Hall] & ->).
    exists (String c g). repeat split.
    + cbn [String.length]. rewrite Hlen. reflexivity.
    + cbn [all_lower_hex]. rewrite Hc, Hall. reflexivity.
Qed.

Lemma hyphen_sound (s rest : string) :
  match_prefix hyphen s = Some rest -> s = "-" +:+ rest.
Proof.
  rewrite hyphen_eq. destruct s as [|c s]; [discriminate|].
  destruct (Ascii.eqb_spec "-"%char c) as [<-|]; [|discriminate].
  intros [= ->]. reflexivity.
Qed.

Lemma hyphen_complete (rest : string) :
  match_prefix hyphen ("-" +:+ rest) = Some rest.
Proof. reflexivity. Qed.

Lemma and_then_Some (o : option string) (f : string -> option string) (rest : string) :
  and_then o f = Some rest -> exists mid, o = Some mid /\ f mid = Some rest.
Proof. destruct o as [mid|]; [eauto | discriminate]. Qed.

(** The expression of [Read] accepts exactly the canonical texts. *)
Lemma MatchString_canonical (s : string) :
  MatchString canonical_re s = true <-> canonical_text s.
Proof.
  unfold MatchString, canonical_re. split.
  - destruct (match_prefix _ s) as [[|]|] eqn:Hm; try discriminate.
    intros _.
    do 8 (rewrite Cat_eq in Hm; apply and_then_Some in Hm as (? & ? & Hm)).
    repeat match goal with
           | H : match_prefix (Rep lower_hex _) _ = Some _ |- _ =>
               apply Rep_lower_hex_sound in H as (? & ? & ?)
           | H : match_prefix hyphen _ = Some _ |- _ =>
               apply hyphen_sound in H
           end.
    subst. rewrite append_Empty_r.
    do 5 eexists. do 5 (split; [shelve|]). reflexivity.
    Unshelve. all: assumption.
  - intros (g1 & g2 & g3 & g4 & g5 & H1 & H2 & H3 & H4 & H5 & ->).
    rewrite Cat_eq, (Rep_lower_hex_complete _ _ _ H1). cbn [and_then].
    rewrite Cat_eq, hyphen_complete. cbn [and_then].
    rewrite Cat_eq, (Rep_lower_hex_complete _ _ _ H2). cbn [and_then].
    rewrite Cat_eq, hyphen_complete. cbn [and_then].
    rewrite Cat_eq, (Rep_lower_hex_complete _ _ _ H3). cbn [and_then].
    rewrite Cat_eq, hyphen_complete. cbn [and_then].
    rewrite Cat_eq, (Rep_lower_hex_complete _ _ _ H4). cbn [and_then].
    rewrite Cat_eq, hyphen_complete. cbn [and_then].
    rewrite <- (append_Empty_r g5).
    rewrite (Rep_lower_hex_complete _ _ _ H5). reflexivity.
Qed.

Lemma digit_lower_hex (b : byte) :
  is_lower_hex (fmt.digit (Z.shiftr (Z_of_byte b) 4)) = true
  /\ is_lower_hex (fmt.digit (Z.land (Z_of_byte b) 15)) = true.
Proof. destruct b; vm_compute; split; reflexivity. Qed.

Lemma x_hex_group (bs : list byte) : hex_group (2 * length bs) (fmt.x bs).
Proof.
  split; [apply x_length|].
  induction bs as [|b bs IH]; [reflexivity|].
  destruct (digit_lower_hex b) as [Hhi Hlo].
  cbn [fmt.x all_lower_hex]. rewrite Hhi, Hlo, IH. reflexivity.
Qed.

(** What [New] and [Scan] format is canonical. *)
Lemma Sprintf_canonical_text (g1 g2 g3 g4 g5 : list byte) :
  length g1 = 4 -> length g2 = 2 -> length g3 = 2 -> length g4 = 2 ->
  length g5 = 6 ->
  canonical_text (Sprintf_canonical g1 g2 g3 g4 g5).
Proof.
  intros L1 L2 L3 L4 L5.
  exists (fmt.x g1), (fmt.x g2), (fmt.x g3), (fmt.x g4), (fmt.x g5).
  pose proof (x_hex_group g1) as H1. rewrite L1 in H1.
  pose proof (x_hex_group g2) as H2. rewrite L2 in H2.
  pose proof (x_hex_group g3) as H3. rewrite L3 in H3.
  pose proof (x_hex_group g4) as H4. rewrite L4 in H4.
  pose proof (x_hex_group g5) as H5. rewrite L5 in H5.
  repeat (split; [assumption|]). reflexivity.
Qed.

End Grammar.

(** ** Decoding a canonical text *)

Section DecodeCanonical.

Lemma lower_hex_char (c : ascii) :
  is_lower_hex c = true ->
  Ascii.eqb c "-" = false /\ exists v, hexpkg.fromHexChar c = Some v.
Proof.
  destruct c as [b0 b1 b2 b3 b4 b5 b6 b7].
  destruct b0, b1, b2, b3, b4, b5, b6, b7;
    (discriminate || (intros _; split; [reflexivity | eexists; reflexivity])).
Qed.

Lemma all_lower_hex_app (a b : string) :
  all_lower_hex (a +:+ b) = all_lower_hex a && all_lower_hex b.
Proof.
  induction a as [|c a IH]; [reflexivity|].
  rewrite append_String. cbn [all_lower_hex]. rewrite IH, andb_assoc.
  reflexivity.
Qed.

Lemma Replace_hyphen_lower_hex (g : string) :
  all_lower_hex g = true -> strings_Replace_hyphen g = g.
Proof.
  induction g as [|c g IH]; [reflexivity|].
  cbn [all_lower_hex strings_Replace_hyphen].
  intros [Hc Hg]%andb_prop.
  destruct (lower_hex_char c Hc) as [-> _]. rewrite IH by exact Hg.
  reflexivity.
Qed.

(** An even number of lower-case digits decodes, two digits to the byte. *)
Lemma DecodeString_lower_hex (n : nat) (g : string) :
  String.length g = 2 * n -> all_lower_hex g = true ->
  exists bs, hexpkg.DecodeString g = Some bs /\ length bs = n.
Proof.
  revert g. induction n as [|n IH]; intros g Hlen Hall.
  - destruct g; [|discriminate Hlen]. exists []. split; reflexivity.
  - destruct g as [|p [|q g]]; try (cbn in Hlen; lia).
    cbn [String.length] in Hlen. cbn [all_lower_hex] in Hall.
    apply andb_prop in Hall as [Hp Hall].
    apply andb_prop in Hall as [Hq Hall].
    destruct (lower_hex_char p Hp) as [_ [a Ha]].
    destruct (lower_hex_char q Hq) as [_ [b Hb]].
    destruct (IH g) as (bs & Hbs & Hn); [lia | exact Hall|].
    cbn [hexpkg.DecodeString]. rewrite Ha, Hb, Hbs.
    eexists. split; [reflexivity|]. cbn [length]. rewrite Hn. reflexivity.
Qed.

(** Every canonical text decodes to sixteen bytes. *)
Lemma canonical_text_decodes (s : string) :
  canonical_text s ->
  exists bs,
    hexpkg.DecodeString (strings_Replace_hyphen s) = Some bs /\ length bs = 16.
Proof.
  intros (g1 & g2 & g3 & g4 & g5 & [L1 A1] & [L2 A2] & [L3 A3] & [L4 A4]
          & [L5 A5] & ->).
  rewrite !Replace_hyphen_app.
  rewrite (Replace_hyphen_lower_hex g1 A1), (Replace_hyphen_lower_hex g2 A2),
    (Replace_hyphen_lower_hex g3 A3), (Replace_hyphen_lower_hex g4 A4),
    (Replace_hyphen_lower_hex g5 A5).
  change (strings_Replace_hyphen "-") with "".
  rewrite !append_Empty.
  apply DecodeString_lower_hex.
  - rewrite !append_length, L1, L2, L3, L4, L5. reflexivity.
  - rewrite !all_lower_hex_app, A1, A2, A3, A4, A5. reflexivity.
Qed.

End DecodeCanonical.

(** ** The map that [SetScopes] builds *)

Section Registry.

Variable newScopes : list string.

Lemma fill_S (n : nat) :
  fill newScopes (S n) = <[at64 newScopes n := n]> (fill newScopes n).
Proof. unfold fill. rewrite seq_S, fold_left_app. reflexivity. Qed.

(** A name is bound to the last index at which the array holds it. *)
Lemma fill_lookup (n : nat) (name : string) (i : nat) :
  fill newScopes n !! name = Some i <->
  i < n /\ at64 newScopes i = name
  /\ forall j, i < j < n -> at64 newScopes j <> name.
Proof.
  induction n as [|n IH].
  - unfold fill. cbn [seq fold_left]. rewrite lookup_empty.
    split; [discriminate | lia].
  - rewrite fill_S.
    destruct (decide (at64 newScopes n = name)) as [Heq|Hne].
    + rewrite Heq, lookup_insert_eq. split.
      * intros [= <-]. repeat split; [lia | exact Heq | lia].
      * intros (Hi & _ & Hlast).
        destruct (decide (i = n)) as [->|Hin]; [reflexivity|].
        exfalso. apply (Hlast n); [lia | exact Heq].
    + rewrite lookup_insert_ne by exact Hne. rewrite IH. split.
      * intros (Hi & Hname & Hlast). repeat split; [lia | exact Hname |].
        intros j Hj. destruct (decide (j = n)) as [->|]; [exact Hne|].
        apply Hlast. lia.
      * intros (Hi & Hname & Hlast).
        assert (i <> n) by (intros ->; exact (Hne Hname)).
        repeat split; [lia | exact Hname |].
        intros j Hj. apply Hlast. lia.
Qed.

(** Every name of the array is bound. *)
Lemma fill_bound (n i : nat) :
  i < n -> is_Some (fill newScopes n !! at64 newScopes i).
Proof.
  induction n as [|n IH]; [lia|]. intros Hi. rewrite fill_S.
  destruct (decide (at64 newScopes n = at64 newScopes i)) as [->|Hne].
  - rewrite lookup_insert_eq. eauto.
  - rewrite lookup_insert_ne by exact Hne. apply IH.
    destruct (decide (i = n)) as [->|]; [congruence | lia].
Qed.

(** Two names never share an index, hence never a tag. *)
Lemma fill_inj (n : nat) (name1 name2 : string) (i : nat) :
  fill newScopes n !! name1 = Some i -> fill newScopes n !! name2 = Some i ->
  name1 = name2.
Proof.
  rewrite !fill_lookup. intros (_ & <- & _) (_ & <- & _). reflexivity.
Qed.

(** The walk over the map in [readScope] finds the name bound to a tag,
    whatever the order in which Go walks the map. *)
Lemma range_find_hit (entries : list (string * nat)) (name : string) (i : nat) :
  entries ≡ₚ map_to_list (fill newScopes 64) ->
  fill newScopes 64 !! name = Some i ->
  range_find (deref_scopes i) entries = Some name.
Proof.
  intros Hperm Hlk. unfold range_find.
  destruct (find _ entries) as [[name' i']|] eqn:Hfind.
  - apply find_some in Hfind as [Hin Heq]. cbn [snd] in Heq.
    apply Byte.byte_dec_bl in Heq.
    apply list_elem_of_In in Hin. rewrite Hperm in Hin.
    apply elem_of_map_to_list in Hin.
    pose proof (proj1 (fill_lookup _ _ _) Hlk) as (Hi & _).
    pose proof (proj1 (fill_lookup _ _ _) Hin) as (Hi' & _).
    apply deref_scopes_inj in Heq; [|assumption..]. subst i'.
    cbn [fst]. f_equal. exact (fill_inj _ _ _ _ Hin Hlk).
  - exfalso.
    assert (Hin : In (name, i) entries).
    { apply list_elem_of_In. rewrite Hperm. apply elem_of_map_to_list, Hlk. }
    apply (find_none _ _ Hfind) in Hin. cbn [snd] in Hin.
    exact (Byte.eqb_false Hin eq_refl).
Qed.

Lemma range_find_miss (entries : list (string * nat)) (tmpByte : byte) :
  entries ≡ₚ map_to_list (fill newScopes 64) ->
  (forall name i, fill newScopes 64 !! name = Some i -> deref_scopes i <> tmpByte) ->
  range_find tmpByte entries = None.
Proof.
  intros Hperm Hmiss. unfold range_find.
  destruct (find _ entries) as [[name i]|] eqn:Hfind; [|reflexivity].
  apply find_some in Hfind as [Hin Heq]. cbn [snd] in Heq.
  apply Byte.byte_dec_bl in Heq.
  apply list_elem_of_In in Hin. rewrite Hperm in Hin.
  apply elem_of_map_to_list in Hin.
  exfalso. exact (Hmiss _ _ Hin (eq_sym Heq)).
Qed.

(** Go does not fix the order of [range] over a map; on a map that
    [SetScopes] built the loop of [readScope] gives the same name in every
    order. *)
Lemma range_order_irrelevant (entries : list (string * nat)) (tmpByte : byte) :
  entries ≡ₚ map_to_list (fill newScopes 64) ->
  range_find tmpByte entries
  = range_find tmpByte (map_to_list (fill newScopes 64)).
Proof.
  intros Hperm.
  destruct (range_find tmpByte (map_to_list (fill newScopes 64)))
    as [name|] eqn:Hm.
  - unfold range_find in Hm.
    destruct (find _ (map_to_list _)) as [[name' i]|] eqn:Hfind;
      [|discriminate Hm].
    injection Hm as <-. cbn [fst].
    apply find_some in Hfind as [Hin Heq]. cbn [snd] in Heq.
    apply Byte.byte_dec_bl in Heq. subst tmpByte.
    apply list_elem_of_In, elem_of_map_to_list in Hin.
    apply range_find_hit; assumption.
  - apply range_find_miss; [assumption|].
    intros name i Hlk Heq. subst tmpByte.
    rewrite (range_find_hit (map_to_list (fill newScopes 64)) name i) in Hm
      by (reflexivity || assumption).
    discriminate Hm.
Qed.

End Registry.

(** ** [readScope] on a formatted array *)

Section ReadScope.

Lemma copy_full (dst src : list byte) :
  length dst = length src -> copy dst src = src.
Proof.
  intros Hlen. unfold copy.
  rewrite Hlen, firstn_all, skipn_all2 by lia. apply app_nil_r.
Qed.

Lemma copy_length (dst src : list byte) : length (copy dst src) = length dst.
Proof.
  unfold copy. rewrite length_app, length_firstn, length_skipn. lia.
Qed.

(** The text of a 16-byte array decodes to the array. *)
Lemma readScope_decodes (b : list byte) :
  length b = 16 ->
  hexpkg.DecodeString
    (strings_Replace_hyphen
       (Sprintf_canonical (sub 0 4 b) (sub 4 6 b) (sub 6 8 b) (sub 8 10 b)
          (sub 10 16 b)))
  = Some b.
Proof.
  intros Hlen. rewrite decode_Sprintf_canonical, groups_cover by exact Hlen.
  reflexivity.
Qed.

Lemma canonical_of_array (b : list byte) :
  length b = 16 ->
  canonical_text
    (Sprintf_canonical (sub 0 4 b) (sub 4 6 b) (sub 6 8 b) (sub 8 10 b)
       (sub 10 16 b)).
Proof.
  intros Hlen.
  do 16 (destruct b as [|? b]; [discriminate Hlen|]).
  destruct b; [|discriminate Hlen].
  apply Sprintf_canonical_text; reflexivity.
Qed.

(** What a successful [New] returned. *)
Lemma New_Some (setScopes : registry) (name : string) (rnd : crand) (r : Z)
    (u : UUID) :
  New setScopes name rnd r = (Some u, None) ->
  exists p b,
    registry_lookup setScopes name = Some p
    /\ length b = 16
    /\ nth 0 b x00 = byte_or (deref_scopes p) (byte_of_Z r)
    /\ u = mkUUID name
             (Sprintf_canonical (sub 0 4 b) (sub 4 6 b) (sub 6 8 b)
                (sub 8 10 b) (sub 10 16 b)) b.
Proof.
  unfold New, crand_Read.
  destruct (registry_lookup setScopes name) as [p|]; [|discriminate].
  destruct (crand_err rnd); [discriminate|].
  pose proof (copy_length (bin zeroUUID) (crand_bytes rnd)) as Hlen.
  destruct (copy (bin zeroUUID) (crand_bytes rnd)) as [|b0 b];
    [discriminate Hlen|].
  intros [= <-].
  exists p, (byte_or (deref_scopes p) (byte_of_Z r) :: b).
  repeat split. exact Hlen.
Qed.

(** [New] succeeds on every registered scope when the system's random
    source does, and fails with [ErrorMissingScope] otherwise. *)
Lemma New_registered (setScopes : registry) (name : string) (rnd : crand)
    (r : Z) (p : nat) :
  registry_lookup setScopes name = Some p -> crand_err rnd = None ->
  exists u, New setScopes name rnd r = (Some u, None) /\ scope u = name.
Proof.
  intros Hlk Herr. unfold New, crand_Read. rewrite Hlk, Herr.
  eexists. split; reflexivity.
Qed.

Lemma New_unregistered (setScopes : registry) (name : string) (rnd : crand)
    (r : Z) :
  registry_lookup setScopes name = None ->
  New setScopes name rnd r = (None, Some ErrorMissingScope).
Proof. intros Hlk. unfold New. rewrite Hlk. reflexivity. Qed.

(** [readScope] on the text of an array whose tag is bound to [name]. *)
Lemma readScope_configured (newScopes : list string) (b bn : list byte)
    (name sc : string) (i : nat) :
  length b = 16 -> length bn = 16 ->
  fill newScopes 64 !! name = Some i ->
  byte_andnot (nth 0 b x00) x03 = deref_scopes i ->
  let h := Sprintf_canonical (sub 0 4 b) (sub 4 6 b) (sub 6 8 b)
             (sub 8 10 b) (sub 10 16 b) in
  readScope (configured newScopes) (mkUUID sc h bn)
  = (mkUUID name h b,
     if String.eqb name "" then Some ErrorBadScope else None).
Proof.
  intros Hb Hbn Hlk Htag h. unfold readScope.
  cbn [hex bin scope]. subst h.
  rewrite readScope_decodes by exact Hb.
  rewrite copy_full by congruence.
  unfold configured, SetScopes, bin0. cbn [fst bin hex scope].
  rewrite Htag, (range_find_hit newScopes _ name i) by (reflexivity || assumption).
  cbn [scope hex bin].
  destruct (String.eqb name ""); reflexivity.
Qed.

Lemma Read_configured (newScopes : list string) (b : list byte)
    (name : string) (i : nat) :
  length b = 16 ->
  fill newScopes 64 !! name = Some i ->
  byte_andnot (nth 0 b x00) x03 = deref_scopes i ->
  let h := Sprintf_canonical (sub 0 4 b) (sub 4 6 b) (sub 6 8 b)
             (sub 8 10 b) (sub 10 16 b) in
  Read (configured newScopes) h
  = if String.eqb name "" then (None, Some ErrorBadScope)
    else (Some (mkUUID name h b), None).
Proof.
  intros Hb Hlk Htag h. unfold Read.
  rewrite (proj2 (MatchString_canonical h)) by (apply canonical_of_array, Hb).
  cbn [negb]. subst h.
  rewrite (readScope_configured newScopes b (bin zeroUUID) name _ i)
    by (reflexivity || assumption).
  destruct (String.eqb name ""); reflexivity.
Qed.

End ReadScope.

(** ** Generation and parsing *)

Section Claims.

Variable newScopes : list string.

(** C2.  Every identifier that [New] produces for a registered scope has
    in [bin[0] & 0xFC] the tag the registry bound to the scope, that is
    the [scopes] entry at the last index at which the configuration array
    holds the scope, and that value is one of the 64 entries of [scopes],
    the multiples of four from 0x00 to 0xFC. *)
Theorem New_tag_invariant (name : string) (rnd : crand) (r : Z) (u : UUID) :
  (0 <= r < 4)%Z ->
  New (configured newScopes) name rnd r = (Some u, None) ->
  exists i,
    registry_lookup (configured newScopes) name = Some i
    /\ i < 64 /\ at64 newScopes i = name
    /\ byte_and (bin0 u) xfc = deref_scopes i
    /\ In (byte_and (bin0 u) xfc) scopes
    /\ Z_of_byte (byte_and (bin0 u) xfc) = (4 * Z.of_nat i)%Z.
Proof.
  intros Hr Hnew.
  apply New_Some in Hnew as (i & b & Hlk & Hlen & Hb0 & ->).
  exists i. split; [exact Hlk|].
  apply fill_lookup in Hlk as (Hi & Hname & _).
  unfold bin0. cbn [bin].
  rewrite byte_and_fc_andnot_03, Hb0, tag_survives_jitter by assumption.
  repeat split; [exact Hi | exact Hname | | ].
  - apply deref_scopes_In, Hi.
  - apply deref_scopes_val, Hi.
Qed.

(** C1, amended.  For every non-empty scope registered in a configured
    registry, [Read] of the canonical text of an identifier that [New]
    generated for it succeeds and returns an identifier with that scope,
    the same 16 bytes and the same canonical text. *)
Theorem Read_New_roundtrip (name : string) (rnd : crand) (r : Z) (u : UUID) :
  name <> "" ->
  (0 <= r < 4)%Z ->
  New (configured newScopes) name rnd r = (Some u, None) ->
  exists h u',
    Hex (Some u) = Returns h
    /\ Read (configured newScopes) h = (Some u', None)
    /\ Scope (Some u') = Returns name
    /\ Bin (Some u') = Bin (Some u)
    /\ Hex (Some u') = Hex (Some u).
Proof.
  intros Hname Hr Hnew.
  apply New_Some in Hnew as (i & b & Hlk & Hlen & Hb0 & ->).
  eexists _, _. split; [reflexivity|]. cbn [hex].
  pose proof (proj1 (fill_lookup _ _ _ _) Hlk) as (Hi & _).
  rewrite (Read_configured newScopes b name i Hlen Hlk)
    by (rewrite Hb0; apply tag_survives_jitter; assumption).
  apply String.eqb_neq in Hname. rewrite Hname.
  repeat split.
Qed.

(** C5.  Every text outside the canonical grammar (eight, four, four,
    four and twelve lower-case hexadecimal digits joined by hyphens, and
    nothing else) makes [Read] fail with [ErrorBadString] and return no
    identifier, whatever the registry holds. *)
Theorem Read_rejects_noncanonical (setScopes : registry) (input : string) :
  ~ canonical_text input ->
  Read setScopes input = (None, Some ErrorBadString).
Proof.
  intros Hnot. unfold Read.
  destruct (regexp.MatchString canonical_re input) eqn:Hm; [|reflexivity].
  exfalso. apply Hnot, MatchString_canonical, Hm.
Qed.

(** C4.  On the package as it starts, [SetScopes] with 64 distinct names
    succeeds and binds the name of each slot to that slot's entry of
    [scopes]; every later call, whatever its array, fails with
    [ErrorScopesAlreadySet] and leaves the registry as it was. *)
Theorem SetScopes_once :
  length newScopes = 64 -> NoDup newScopes ->
  SetScopes None newScopes = (configured newScopes, None)
  /\ configured newScopes <> None
  /\ (forall i name, newScopes !! i = Some name ->
        registry_lookup (configured newScopes) name = Some i)
  /\ (forall calls : list (list string),
        SetScopes_calls (configured newScopes) calls
        = (configured newScopes,
           repeat (Some ErrorScopesAlreadySet) (length calls))).
Proof.
  intros Hlen Hnd. repeat split.
  - discriminate.
  - intros i name Hi. unfold configured, SetScopes. cbn [fst registry_lookup].
    pose proof (lookup_lt_Some _ _ _ Hi) as Hlt. rewrite Hlen in Hlt.
    assert (Hat : forall j x, newScopes !! j = Some x -> at64 newScopes j = x).
    { intros j x Hj. unfold at64. apply nth_lookup_Some with (d := "") in Hj.
      exact Hj. }
    apply fill_lookup. repeat split; [exact Hlt | exact (Hat _ _ Hi) |].
    intros j Hj Hdup.
    destruct (lookup_lt_is_Some_2 newScopes j) as [x Hx]; [lia|].
    rewrite (Hat _ _ Hx) in Hdup. subst x.
    pose proof (NoDup_lookup _ _ _ _ Hnd Hi Hx). lia.
  - intros calls. unfold configured, SetScopes. cbn [fst].
    induction calls as [|c calls IH]; [reflexivity|].
    cbn [SetScopes_calls SetScopes length repeat]. rewrite IH. reflexivity.
Qed.

End Claims.

Lemma New_tag_invariant_witness :
  exists i,
    registry_lookup (configured myScopes) "five" = Some i
    /\ i < 64 /\ at64 myScopes i = "five"
    /\ byte_and (bin0 uuid_five) xfc = deref_scopes i
    /\ In (byte_and (bin0 uuid_five) xfc) scopes
    /\ Z_of_byte (byte_and (bin0 uuid_five) xfc) = (4 * Z.of_nat i)%Z.
Proof.
  apply (New_tag_invariant myScopes "five" zero_rnd 3 uuid_five);
    [lia | reflexivity].
Defined.

(** The scenario of the specification: the name at index 4 carries 0x10. *)
Example New_five_tag :
  New (configured myScopes) "five" zero_rnd 3 = (Some uuid_five, None)
  /\ registry_lookup (configured myScopes) "five" = Some 4
  /\ byte_and (bin0 uuid_five) xfc = x10.
Proof. repeat split. Qed.

Lemma Read_New_roundtrip_witness :
  exists h u',
    Hex (Some uuid_five) = Returns h
    /\ Read (configured myScopes) h = (Some u', None)
    /\ Scope (Some u') = Returns "five"
    /\ Bin (Some u') = Bin (Some uuid_five)
    /\ Hex (Some u') = Hex (Some uuid_five).
Proof.
  apply (Read_New_roundtrip myScopes "five" zero_rnd 3 uuid_five);
    [discriminate | lia | reflexivity].
Defined.

(** C1 as stated fails: the empty string is a registered scope of the test
    configuration (it fills the slots from index 8 on and is bound at index
    63), [New] generates an identifier for it, and [Read] rejects the text
    of that identifier. *)
Lemma Read_New_empty_scope_fails :
  registry_lookup (configured myScopes) "" = Some 63
  /\ New (configured myScopes) "" zero_rnd 0 = (Some uuid_empty, None)
  /\ Hex (Some uuid_empty) = Returns "fc000000-0000-0000-0000-000000000000"
  /\ Read (configured myScopes) "fc000000-0000-0000-0000-000000000000"
     = (None, Some ErrorBadScope).
Proof. vm_compute. repeat split. Qed.

Lemma SetScopes_once_witness :
  SetScopes None sixty_four_names = (configured sixty_four_names, None)
  /\ configured sixty_four_names <> None
  /\ (forall i name, sixty_four_names !! i = Some name ->
        registry_lookup (configured sixty_four_names) name = Some i)
  /\ (forall calls : list (list string),
        SetScopes_calls (configured sixty_four_names) calls
        = (configured sixty_four_names,
           repeat (Some ErrorScopesAlreadySet) (length calls))).
Proof.
  apply (SetScopes_once sixty_four_names);
    [reflexivity | apply (bool_decide_unpack _); vm_compute; exact I].
Defined.

(** The first scenario of the specification. *)
Example SetScopes_twice :
  SetScopes_calls None [sixty_four_names; ["one"]]
  = (configured sixty_four_names, [None; Some ErrorScopesAlreadySet]).
Proof. reflexivity. Qed.

Lemma Read_rejects_noncanonical_witness :
  Read (configured myScopes) "1" = (None, Some ErrorBadString).
Proof.
  apply (Read_rejects_noncanonical (configured myScopes) "1").
  intros H. apply MatchString_canonical in H. vm_compute in H. discriminate H.
Defined.

(** Truncated text, upper-case digits, wrong grouping and surrounding white
    space are all rejected by the expression. *)
Example Read_rejects_variants (setScopes : registry) :
  Read setScopes "13000000-0000-0000-0000-00000000000" = (None, Some ErrorBadString)
  /\ Read setScopes "13000000-0000-0000-0000-00000000000A" = (None, Some ErrorBadString)
  /\ Read setScopes "1300000-00000-0000-0000-000000000000" = (None, Some ErrorBadString)
  /\ Read setScopes "13000000000000000000000000000000" = (None, Some ErrorBadString)
  /\ Read setScopes " 13000000-0000-0000-0000-000000000000" = (None, Some ErrorBadString)
  /\ Read setScopes "13000000-0000-0000-0000-000000000000 " = (None, Some ErrorBadString)
  /\ Read setScopes "" = (None, Some ErrorBadString).
Proof. repeat split. Qed.

(** ** Accessors and [ScopeMatches] *)

(** C7.  On the nil pointer each accessor returns the zero value and does
    not panic: [Scope] and [Hex] the empty string, [Bin] sixteen zero
    bytes. *)
Theorem accessors_on_nil :
  Scope None = Returns ""
  /\ Hex None = Returns ""
  /\ Bin None = Returns (repeat x00 16).
Proof. repeat split. Qed.

(** On a pointer to a struct [ScopeMatches] is the membership test. *)
Lemma ScopeMatches_Some (u : UUID) (cs : list string) :
  ScopeMatches (Some u) cs = Returns (bool_decide (scope u ∈ cs)).
Proof.
  induction cs as [|c cs IH]; [reflexivity|].
  cbn [ScopeMatches].
  destruct (String.eqb_spec (scope u) c) as [->|Hne].
  - rewrite bool_decide_eq_true_2 by apply list_elem_of_here. reflexivity.
  - rewrite IH. f_equal. apply bool_decide_ext.
    rewrite elem_of_cons. tauto.
Qed.

Lemma ScopeMatches_no_candidates (uuid : option UUID) :
  ScopeMatches uuid [] = Returns false.
Proof. reflexivity. Qed.

(** The loop body dereferences the receiver: on the nil pointer every
    non-empty argument panics. *)
Lemma ScopeMatches_nil (c : string) (cs : list string) :
  ScopeMatches None (c :: cs) = Panics NilDereference.
Proof. reflexivity. Qed.

(** C6, at the failing input.  The comment of [ScopeMatches] promises
    [false] for a UUID that is not initialized; on the nil pointer and a
    non-empty list the call panics instead, and on the zero struct it
    answers [true] when the list holds the empty string. *)
Theorem ScopeMatches_uninitialized :
  ScopeMatches None ["one"] = Panics NilDereference
  /\ ScopeMatches (Some zeroUUID) [""] = Returns true.
Proof. split; reflexivity. Qed.

(** ** [Read] without a registry *)

(** [Read] replaces whatever error [readScope] returned by
    [ErrorBadScope], so it never reports [ErrorMissingScope]. *)
Lemma Read_errors (setScopes : registry) (input : string) (e : error) :
  snd (Read setScopes input) = Some e ->
  e = ErrorBadString \/ e = ErrorBadScope.
Proof.
  unfold Read.
  destruct (negb _); [intros [= <-]; left; reflexivity|].
  destruct (readScope _ _) as [u [err|]]; [|discriminate].
  intros [= <-]. right. reflexivity.
Qed.

(** On every canonical text, with the registry never configured,
    [readScope] returns [ErrorMissingScope] and [Read] turns it into
    [ErrorBadScope]. *)
Lemma Read_unconfigured (input : string) :
  canonical_text input ->
  snd (readScope None (mkUUID "" input (repeat x00 16))) = Some ErrorMissingScope
  /\ Read None input = (None, Some ErrorBadScope).
Proof.
  intros Hcanon.
  destruct (canonical_text_decodes input Hcanon) as (bs & Hbs & _).
  unfold Read. rewrite (proj2 (MatchString_canonical input) Hcanon).
  cbn [negb]. unfold readScope. cbn [hex scope bin zeroUUID].
  rewrite Hbs. split; reflexivity.
Qed.

(** C3, at the failing input.  With the registry never configured,
    [readScope] returns [ErrorMissingScope] on a canonical text, and [Scan]
    hands that error on, but [Read] reports [ErrorBadScope]. *)
Theorem Read_unconfigured_reports_BadScope :
  regexp.MatchString canonical_re all_zero_text = true
  /\ snd (readScope None (mkUUID "" all_zero_text (repeat x00 16)))
     = Some ErrorMissingScope
  /\ Scan None (Some zeroUUID) (VBytes (slice_of (repeat x00 16)))
     = Returns (Some (mkUUID "" all_zero_text (repeat x00 16)),
                Some ErrorMissingScope)
  /\ Read None all_zero_text = (None, Some ErrorBadScope).
Proof. repeat split. Qed.

(** ** [Scan] *)

Lemma slice_expr_in_range (s : slice) (lo hi : nat) :
  lo <= hi -> hi <= cap s ->
  slice_expr s lo hi = Returns (sub lo hi (backing s)).
Proof.
  intros H1 H2. unfold slice_expr.
  rewrite (proj2 (Nat.leb_le _ _) H1), (proj2 (Nat.leb_le _ _) H2).
  reflexivity.
Qed.

Lemma slice_expr_out_of_range (s : slice) (lo hi : nat) :
  cap s < hi -> slice_expr s lo hi = Panics SliceBoundsOutOfRange.
Proof.
  intros H. unfold slice_expr.
  rewrite (proj2 (Nat.leb_gt _ _) H), andb_false_r. reflexivity.
Qed.

(** The five slice expressions of [Scan] are in range together exactly
    when the capacity reaches 16. *)
Lemma Scan_bytes (setScopes : registry) (uuid : option UUID) (s : slice) :
  Scan setScopes uuid (VBytes s)
  = if cap s <? 16 then Panics SliceBoundsOutOfRange
    else
      match uuid with
      | None => Panics NilDereference
      | Some u =>
          let b := backing s in
          let h := Sprintf_canonical (sub 0 4 b) (sub 4 6 b) (sub 6 8 b)
                     (sub 8 10 b) (sub 10 16 b) in
          let after := readScope setScopes (mkUUID (scope u) h (bin u)) in
          Returns (Some (fst after), snd after)
      end.
Proof.
  unfold Scan.
  destruct (Nat.ltb_spec (cap s) 16) as [Hlt|Hge].
  - destruct (Nat.le_gt_cases 4 (cap s)) as [H4|H4];
      [|rewrite (slice_expr_out_of_range s 0 4) by lia; reflexivity].
    rewrite (slice_expr_in_range s 0 4) by lia. cbn [obind].
    destruct (Nat.le_gt_cases 6 (cap s)) as [H6|H6];
      [|rewrite (slice_expr_out_of_range s 4 6) by lia; reflexivity].
    rewrite (slice_expr_in_range s 4 6) by lia. cbn [obind].
    destruct (Nat.le_gt_cases 8 (cap s)) as [H8|H8];
      [|rewrite (slice_expr_out_of_range s 6 8) by lia; reflexivity].
    rewrite (slice_expr_in_range s 6 8) by lia. cbn [obind].
    destruct (Nat.le_gt_cases 10 (cap s)) as [H10|H10];
      [|rewrite (slice_expr_out_of_range s 8 10) by lia; reflexivity].
    rewrite (slice_expr_in_range s 8 10) by lia. cbn [obind].
    rewrite (slice_expr_out_of_range s 10 16) by lia. reflexivity.
  - rewrite !slice_expr_in_range by lia. cbn [obind].
    destruct uuid as [u|]; [|reflexivity].
    destruct (readScope _ _); reflexivity.
Qed.

(** C9, amended.  On a byte slice [Scan] panics with a slice-bounds error,
    instead of returning an error result, exactly when the capacity of the
    slice is below 16, whatever its length; on a byte slice of capacity 16
    or more it formats the first 16 bytes of the backing array and, the
    receiver not being nil, returns what [readScope] returns.  On a value
    of any other type it returns the type-assertion error. *)
Theorem Scan_faults_below_capacity_16 (setScopes : registry) (uuid : option UUID) :
  (forall s : slice,
     Scan setScopes uuid (VBytes s)
     = if cap s <? 16 then Panics SliceBoundsOutOfRange
       else
         match uuid with
         | None => Panics NilDereference
         | Some u =>
             let b := backing s in
             let h := Sprintf_canonical (sub 0 4 b) (sub 4 6 b) (sub 6 8 b)
                        (sub 8 10 b) (sub 10 16 b) in
             let after := readScope setScopes (mkUUID (scope u) h (bin u)) in
             Returns (Some (fst after), snd after)
         end)
  /\ (forall src : value,
        match src with
        | VBytes _ => True
        | _ => Scan setScopes uuid src
               = Returns (uuid, Some "Type assertion .([]byte) failed.")
        end).
Proof.
  split.
  - intros s. apply Scan_bytes.
  - intros src. destruct src; reflexivity || exact I.
Qed.

(** A slice with no spare capacity and fewer than 16 bytes makes [Scan]
    panic; the nil and the empty slice are among them. *)
Corollary Scan_short_list_panics (setScopes : registry) (u : UUID) (bs : list byte) :
  length bs < 16 ->
  Scan setScopes (Some u) (VBytes (slice_of bs)) = Panics SliceBoundsOutOfRange.
Proof.
  intros Hlen. rewrite Scan_bytes.
  unfold cap, slice_of. cbn [backing].
  rewrite (proj2 (Nat.ltb_lt _ _) Hlen). reflexivity.
Qed.

Lemma Scan_not_bytes (setScopes : registry) (uuid : option UUID) (src : value) :
  (forall s, src <> VBytes s) ->
  Scan setScopes uuid src = Returns (uuid, Some "Type assertion .([]byte) failed.").
Proof. intros H. destruct src; [exfalso; eapply H|..]; reflexivity. Qed.

(** C9 as stated fails: this slice is shorter than 16 bytes, and [Scan]
    does not panic on it; it returns an error result. *)
Lemma Scan_short_slice_returns :
  slice_wf three_of_sixteen
  /\ slice_len three_of_sixteen = 3
  /\ Scan None (Some zeroUUID) (VBytes three_of_sixteen)
     = Returns (Some (mkUUID "" all_zero_text (repeat x00 16)),
                Some ErrorMissingScope).
Proof. vm_compute. repeat split. lia. Qed.

(** ** Names that occur more than once *)

(** C10.  A name of the configuration array is bound to the [scopes] entry
    of the last index at which it occurs.  When the empty string is bound,
    [New ""] succeeds, yet [Read] fails on the text of every identifier
    whose tag is the one bound to the empty string, the identifiers that
    [New ""] generates among them.  An array literal with fewer than 64
    names binds the empty string to the last entry, 0xFC. *)
Theorem empty_name_generated_but_unreadable (newScopes : list string) :
  (forall name i,
     i < 64 -> at64 newScopes i = name ->
     (forall j, i < j < 64 -> at64 newScopes j <> name) ->
     registry_lookup (configured newScopes) name = Some i)
  /\ (forall i,
        registry_lookup (configured newScopes) "" = Some i ->
        (forall rnd r, crand_err rnd = None ->
           exists u, New (configured newScopes) "" rnd r = (Some u, None))
        /\ (forall rnd r u, (0 <= r < 4)%Z ->
              New (configured newScopes) "" rnd r = (Some u, None) ->
              Read (configured newScopes) (hex u) = (None, Some ErrorBadScope))
        /\ (forall b, length b = 16 ->
              byte_and (nth 0 b x00) xfc = deref_scopes i ->
              Read (configured newScopes)
                (Sprintf_canonical (sub 0 4 b) (sub 4 6 b) (sub 6 8 b)
                   (sub 8 10 b) (sub 10 16 b))
              = (None, Some ErrorBadScope)))
  /\ (length newScopes < 64 ->
        registry_lookup (configured newScopes) "" = Some 63
        /\ deref_scopes 63 = xfc).
Proof.
  split; [|split].
  - intros name i Hi Hname Hlast. apply fill_lookup. auto.
  - intros i Hlk.
    assert (Hread : forall b, length b = 16 ->
              byte_and (nth 0 b x00) xfc = deref_scopes i ->
              Read (configured newScopes)
                (Sprintf_canonical (sub 0 4 b) (sub 4 6 b) (sub 6 8 b)
                   (sub 8 10 b) (sub 10 16 b))
              = (None, Some ErrorBadScope)).
    { intros b Hlen Htag. rewrite byte_and_fc_andnot_03 in Htag.
      rewrite (Read_configured newScopes b "" i Hlen Hlk Htag). reflexivity. }
    split; [|split; [|exact Hread]].
    + intros rnd r Herr.
      destruct (New_registered _ _ rnd r _ Hlk Herr) as (u & Hu & _). eauto.
    + intros rnd r u Hr Hnew.
      apply New_Some in Hnew as (p & b & Hp & Hlen & Hb0 & ->).
      rewrite Hlk in Hp. injection Hp as <-. cbn [hex].
      apply Hread; [exact Hlen|].
      pose proof (proj1 (fill_lookup _ _ _ _) Hlk) as (Hi & _).
      rewrite byte_and_fc_andnot_03, Hb0. apply tag_survives_jitter; assumption.
  - intros Hshort. split; [|reflexivity].
    apply fill_lookup. repeat split; [lia | | lia].
    unfold at64. apply nth_overflow. lia.
Qed.

Lemma empty_name_generated_but_unreadable_witness :
  registry_lookup (configured myScopes) "eight" = Some 7
  /\ registry_lookup (configured myScopes) "" = Some 63
  /\ deref_scopes 63 = xfc
  /\ (exists u, New (configured myScopes) "" zero_rnd 0 = (Some u, None))
  /\ Read (configured myScopes) (hex uuid_empty) = (None, Some ErrorBadScope)
  /\ Read (configured myScopes) "ff8cb1d0-84f3-9d8d-76cc-682d1ca34dae"
     = (None, Some ErrorBadScope).
Proof.
  destruct (empty_name_generated_but_unreadable myScopes) as (Hlast & Hempty & Hshort).
  destruct Hshort as [Hlk Htag]; [vm_compute; lia|].
  destruct (Hempty 63 Hlk) as (Hnew & Hgen & Hread).
  split; [|split; [|split; [|split; [|split]]]].
  - apply (Hlast "eight" 7); [lia | reflexivity |].
    intros j Hj. do 8 (destruct j as [|j]; [lia|]).
    do 56 (destruct j as [|j]; [discriminate|]). lia.
  - exact Hlk.
  - exact Htag.
  - apply Hnew. reflexivity.
  - apply (Hgen zero_rnd 0%Z); [lia | reflexivity].
  - apply (Hread [xff; x8c; xb1; xd0; x84; xf3; x9d; x8d; x76; xcc; x68;
                  x2d; x1c; xa3; x4d; xae]); reflexivity.
Defined.

(** ** Two calls of [SetScopes] at once *)

Section RaceFacts.

Import Race.

(** Alone, the three steps are the function. *)
Lemma step_alone (setScopes : registry) (newScopes : list string) :
  run (mkWorld setScopes (AtCheck newScopes) (Returned None)) [true; true; true]
  = mkWorld (fst (SetScopes setScopes newScopes))
      (Returned (snd (SetScopes setScopes newScopes))) (Returned None).
Proof. destruct setScopes; reflexivity. Qed.

Lemma inv_start (names1 names2 : list string) :
  inv names1 names2 (start names1 names2).
Proof.
  unfold inv, start, call_of, returned. cbn.
  repeat split; auto; intros [err H]; discriminate H.
Qed.

Ltac call_cases H :=
  destruct H as [H|[H|[H|[H|H]]]]; rewrite H in *; clear H.

Lemma inv_step (names1 names2 : list string) (w : world) (who : bool) :
  inv names1 names2 w -> inv names1 names2 (sched_step w who).
Proof.
  destruct w as [st c1 c2]. unfold inv, sched_step, call_of, returned.
  cbn [shared first second].
  intros (H1 & H2 & Hst).
  destruct who; [call_cases H1 | call_cases H2];
    destruct st as [m|]; cbn [step shared first second];
    repeat match goal with
           | |- _ /\ _ => split
           | H : _ /\ _ |- _ => destruct H
           end;
    try (intros [? ?]); try discriminate; try assumption; try tauto;
    try (destruct Hst as [[? ?]|[? ?]]; try discriminate; tauto);
    try (exfalso; eauto; fail).
Qed.

Lemma inv_run (names1 names2 : list string) (sched : list bool) (w : world) :
  inv names1 names2 w -> inv names1 names2 (run w sched).
Proof.
  revert w. induction sched as [|who sched IH]; intros w Hw; [exact Hw|].
  cbn [run fold_left]. apply IH, inv_step, Hw.
Qed.

Lemma run_app (w : world) (s1 s2 : list bool) :
  run w (s1 ++ s2) = run (run w s1) s2.
Proof. apply fold_left_app. Qed.

(** Steps of one goroutine leave the other where it is. *)
Lemma run_first_only (w : world) (sched : list bool) :
  Forall (eq true) sched -> second (run w sched) = second w.
Proof.
  revert w. induction sched as [|who sched IH]; intros w Hall; [reflexivity|].
  inversion Hall as [|? ? <- Hrest]; subst. cbn [run fold_left].
  fold (run (sched_step w true) sched). rewrite IH by exact Hrest.
  unfold sched_step. destruct (step _ _). reflexivity.
Qed.

Lemma run_second_only (w : world) (sched : list bool) :
  Forall (eq false) sched -> first (run w sched) = first w.
Proof.
  revert w. induction sched as [|who sched IH]; intros w Hall; [reflexivity|].
  inversion Hall as [|? ? <- Hrest]; subst. cbn [run fold_left].
  fold (run (sched_step w false) sched). rewrite IH by exact Hrest.
  unfold sched_step. destruct (step _ _). reflexivity.
Qed.

Lemma run_cons (w : world) (who : bool) (sched : list bool) :
  run w (who :: sched) = run (sched_step w who) sched.
Proof. reflexivity. Qed.

(** A call that has returned stays as it is. *)
Lemma run_second_returned (st : registry) (c1 : call) (err : option error)
    (sched : list bool) :
  Forall (eq false) sched ->
  run (mkWorld st c1 (Returned err)) sched = mkWorld st c1 (Returned err).
Proof.
  induction sched as [|who sched IH]; intros Hall; [reflexivity|].
  inversion Hall as [|? ? <- Hrest]; subst.
  rewrite run_cons. exact (IH Hrest).
Qed.

(** A call that starts on a configured registry fails and changes
    nothing, however many steps it is given. *)
Lemma run_late_call (m : gmap string nat) (c1 : call) (names2 : list string)
    (sched : list bool) (err : option error) :
  Forall (eq false) sched ->
  second (run (mkWorld (Some m) c1 (AtCheck names2)) sched) = Returned err ->
  err = Some ErrorScopesAlreadySet
  /\ shared (run (mkWorld (Some m) c1 (AtCheck names2)) sched) = Some m.
Proof.
  intros Hall. destruct sched as [|who sched]; [discriminate|].
  inversion Hall as [|? ? <- Hrest]; subst.
  rewrite run_cons.
  change (sched_step (mkWorld (Some m) c1 (AtCheck names2)) false)
    with (mkWorld (Some m) c1 (Returned (Some ErrorScopesAlreadySet))).
  rewrite run_second_returned by exact Hrest.
  cbn [shared second]. intros [= <-]. split; reflexivity.
Qed.

End RaceFacts.

(** What the test of [SetScopes] does achieve, for comparison with the
    failing schedule below: in every interleaving of the statements of two
    calls the registry is at each point unset or the whole map of one of
    them, and at least one call returns nil; and when the first call has
    returned before the second takes its first step, set-once holds: the
    first returns nil, the second [ErrorScopesAlreadySet], and the registry
    is the map of the first. *)
Theorem SetScopes_interleaved (names1 names2 : list string) (sched : list bool) :
  let w := Race.run (Race.start names1 names2) sched in
  (Race.shared w = None \/ Race.shared w = configured names1
   \/ Race.shared w = configured names2)
  /\ (forall e1 e2,
        Race.first w = Race.Returned e1 -> Race.second w = Race.Returned e2 ->
        (e1 = None \/ e2 = None)
        /\ (e1 = None \/ e1 = Some ErrorScopesAlreadySet)
        /\ (e2 = None \/ e2 = Some ErrorScopesAlreadySet))
  /\ (forall s1 s2 e1 e2,
        sched = s1 ++ s2 -> Forall (eq true) s1 -> Forall (eq false) s2 ->
        Race.first w = Race.Returned e1 -> Race.second w = Race.Returned e2 ->
        e1 = None /\ e2 = Some ErrorScopesAlreadySet
        /\ Race.shared w = configured names1).
Proof.
  intros w.
  pose proof (inv_run names1 names2 sched _ (inv_start names1 names2))
    as (H1 & H2 & Hst).
  fold w in H1, H2, Hst. split; [|split].
  - unfold configured, SetScopes. cbn [fst].
    destruct (Race.shared w) as [m|]; [|auto].
    destruct Hst as [[-> _]|[-> _]]; auto.
  - intros e1 e2 He1 He2. rewrite He1 in *. rewrite He2 in *.
    destruct (Race.shared w) as [m|].
    + destruct H1 as [H1|[H1|[H1|[H1|H1]]]]; try discriminate H1;
        destruct H2 as [H2|[H2|[H2|[H2|H2]]]]; try discriminate H2;
        injection H1 as ->; injection H2 as ->; auto.
      destruct Hst as [[_ Hc]|[_ Hc]]; discriminate Hc.
    + destruct Hst as [Hn _]. exfalso. apply Hn. exists e1. reflexivity.
  - intros s1 s2 e1 e2 -> Hs1 Hs2 He1 He2. subst w.
    rewrite run_app in He1, He2 |- *.
    rewrite run_second_only in He1 by exact Hs2.
    pose proof (inv_run names1 names2 s1 _ (inv_start names1 names2))
      as (_ & _ & Hst1).
    pose proof (run_first_only (Race.start names1 names2) s1 Hs1) as Hsnd.
    cbn [Race.start Race.second] in Hsnd.
    destruct (Race.run (Race.start names1 names2) s1) as [st c1 c2].
    cbn [Race.shared Race.first Race.second] in *. subst c1 c2.
    destruct st as [m|].
    + destruct Hst1 as [[-> Hc]|[_ Hc]]; [|discriminate Hc].
      injection Hc as ->.
      destruct (run_late_call _ _ _ _ _ Hs2 He2) as [-> ->].
      repeat split.
    + destruct Hst1 as [Hn _]. exfalso. apply Hn. exists e1. reflexivity.
Qed.

Lemma SetScopes_interleaved_witness :
  Race.first (Race.run (Race.start myScopes ["ten"])
                ([true; true; true] ++ [false; false; false]))
  = Race.Returned None
  /\ Race.second (Race.run (Race.start myScopes ["ten"])
                    ([true; true; true] ++ [false; false; false]))
     = Race.Returned (Some ErrorScopesAlreadySet)
  /\ Race.shared (Race.run (Race.start myScopes ["ten"])
                    ([true; true; true] ++ [false; false; false]))
     = configured myScopes.
Proof.
  destruct (SetScopes_interleaved myScopes ["ten"]
              ([true; true; true] ++ [false; false; false]))
    as (_ & Hboth & Hseq).
  destruct (Hboth None (Some ErrorScopesAlreadySet)) as (_ & _ & _);
    [reflexivity | reflexivity |].
  destruct (Hseq [true; true; true] [false; false; false] None
              (Some ErrorScopesAlreadySet)) as (_ & _ & Hshared);
    [reflexivity | repeat constructor | repeat constructor
    | reflexivity | reflexivity |].
  split; [reflexivity | split; [reflexivity | exact Hshared]].
Defined.

(** The failing schedule on any two arrays: each call tests [setScopes]
    before the other assigns it, both return nil, and the registry that the
    first call installed is replaced by the one of the second. *)
Lemma race_schedule_any_arrays (names1 names2 : list string) :
  Race.run (Race.start names1 names2) [true; false; true; true]
  = Race.mkWorld (configured names1) (Race.Returned None)
      (Race.AtLoop names2)
  /\ Race.run (Race.start names1 names2) [true; false; true; true; false; false]
     = Race.mkWorld (configured names2) (Race.Returned None)
         (Race.Returned None).
Proof. split; reflexivity. Qed.

(** Alone, on a registry that does not change, the two steps of the
    reader are [New]. *)
Lemma reader_alone (setScopes : registry) (name : string) (rnd : crand) (r : Z) :
  Observer.step setScopes (Observer.step setScopes (Observer.AtTest name rnd r))
  = Observer.Finished (Returns (New setScopes name rnd r)).
Proof.
  cbn [Observer.step].
  destruct (registry_lookup setScopes name) as [p|] eqn:Hlk.
  - cbn [Observer.step].
    destruct (crand_err rnd) as [err|] eqn:Herr.
    + unfold New, crand_Read. rewrite Hlk, Herr. reflexivity.
    + rewrite Hlk. reflexivity.
  - cbn [Observer.step]. unfold New. rewrite Hlk. reflexivity.
Qed.

(** A call of [New] beside the failing schedule: ["five"] passes the test
    of line 195 on the registry of the first call, and line 206 then
    dereferences the nil pointer that the registry of the second call
    gives for it. *)
Lemma New_beside_race_panics :
  Observer.run
    (Observer.mkWorld (Race.start myScopes ["ten"])
       (Observer.AtTest "five" zero_rnd 3))
    [Observer.First; Observer.Second; Observer.First; Observer.First;
     Observer.Reader; Observer.Second; Observer.Second; Observer.Reader]
  = Observer.mkWorld
      (Race.mkWorld (configured ["ten"]) (Race.Returned None)
         (Race.Returned None))
      (Observer.Finished (Panics NilDereference)).
Proof. vm_compute. reflexivity. Qed.

(** C8, at the failing schedule.  The comment of [SetScopes] says that it
    can only set scopes when none are configured yet, and its error that
    scopes can only be set once.  Two calls on the package as it starts,
    each testing [setScopes] before the other assigns it, both return nil:
    neither observes [ErrorScopesAlreadySet].  The first call has returned
    with ["five"] bound, and the assignment of the second then replaces the
    configured map, after which ["five"] is bound no more. *)
Theorem SetScopes_race_both_succeed :
  let sched := [true; false; true; true; false; false] in
  Race.run (Race.start myScopes ["ten"]) sched
  = Race.mkWorld (configured ["ten"]) (Race.Returned None) (Race.Returned None)
  /\ registry_lookup
       (Race.shared (Race.run (Race.start myScopes ["ten"]) (firstn 4 sched)))
       "five" = Some 4
  /\ registry_lookup
       (Race.shared (Race.run (Race.start myScopes ["ten"]) sched))
       "five" = None.
Proof. vm_compute. repeat split. Qed.

(** * Further properties of the package *)

(** ** From text to bytes and back *)

Section TextRoundTrip.

(** A lower-case digit is the digit of its value. *)
Lemma lower_hex_value (c : ascii) :
  is_lower_hex c = true ->
  exists v, hexpkg.fromHexChar c = Some v /\ (0 <= v < 16)%Z /\ fmt.digit v = c.
Proof.
  intros Hc.
  exists (match hexpkg.fromHexChar c with Some v => v | None => 0%Z end).
  revert Hc. destruct c as [b0 b1 b2 b3 b4 b5 b6 b7].
  destruct b0, b1, b2, b3, b4, b5, b6, b7;
    (discriminate || (intros _; vm_compute; repeat split; congruence)).
Qed.

Lemma digit_values_In (v : Z) : (0 <= v < 16)%Z -> In v digit_values.
Proof.
  intros Hv.
  assert (H : (v = 0 \/ v = 1 \/ v = 2 \/ v = 3 \/ v = 4 \/ v = 5 \/ v = 6
               \/ v = 7 \/ v = 8 \/ v = 9 \/ v = 10 \/ v = 11 \/ v = 12
               \/ v = 13 \/ v = 14 \/ v = 15)%Z) by lia.
  unfold digit_values. cbn [In]. intuition auto.
Qed.

(** Two digit values packed into a byte come out again. *)
Lemma pack_unpack (a b : Z) :
  (0 <= a < 16)%Z -> (0 <= b < 16)%Z ->
  Z.shiftr (Z_of_byte (byte_of_Z (Z.lor (Z.shiftl a 4) b))) 4 = a
  /\ Z.land (Z_of_byte (byte_of_Z (Z.lor (Z.shiftl a 4) b))) 15 = b.
Proof.
  intros Ha%digit_values_In Hb%digit_values_In.
  assert (Hall : forallb (fun a => forallb (fun b =>
            Z.eqb (Z.shiftr (Z_of_byte (byte_of_Z (Z.lor (Z.shiftl a 4) b))) 4) a
            && Z.eqb (Z.land (Z_of_byte (byte_of_Z (Z.lor (Z.shiftl a 4) b))) 15) b)
            digit_values) digit_values = true) by (vm_compute; reflexivity).
  rewrite forallb_forall in Hall. specialize (Hall a Ha).
  rewrite forallb_forall in Hall. specialize (Hall b Hb).
  apply andb_prop in Hall as [H1 H2].
  split; apply Z.eqb_eq; assumption.
Qed.

(** [%x] undoes [hex.DecodeString] on lower-case digits. *)
Lemma x_DecodeString (bs : list byte) (g : string) :
  all_lower_hex g = true -> hexpkg.DecodeString g = Some bs -> fmt.x bs = g.
Proof.
  revert g. induction bs as [|b bs IH]; intros g Hall Hdec.
  - destruct g as [|p [|q rest]]; [reflexivity | discriminate Hdec |].
    cbn [hexpkg.DecodeString] in Hdec.
    destruct (hexpkg.fromHexChar p), (hexpkg.fromHexChar q),
      (hexpkg.DecodeString rest); discriminate Hdec.
  - destruct g as [|p [|q rest]]; [discriminate Hdec | discriminate Hdec |].
    cbn [all_lower_hex] in Hall.
    apply andb_prop in Hall as [Hp Hall]. apply andb_prop in Hall as [Hq Hall].
    destruct (lower_hex_value p Hp) as (a & Ha & Hra & Hda).
    destruct (lower_hex_value q Hq) as (c & Hc & Hrc & Hdc).
    cbn [hexpkg.DecodeString] in Hdec. rewrite Ha, Hc in Hdec.
    destruct (hexpkg.DecodeString rest) as [bs'|] eqn:Hrest; [|discriminate Hdec].
    injection Hdec as <- <-.
    destruct (pack_unpack a c Hra Hrc) as [Hhi Hlo].
    cbn [fmt.x]. rewrite Hhi, Hlo, Hda, Hdc, (IH rest Hall Hrest).
    reflexivity.
Qed.

Lemma append_inv (a c b d : string) :
  String.length a = String.length c -> a +:+ b = c +:+ d -> a = c /\ b = d.
Proof.
  revert c. induction a as [|x a IH]; intros [|y c] Hlen Heq;
    try discriminate Hlen.
  - split; [reflexivity | exact Heq].
  - rewrite !append_String in Heq. injection Heq as -> Heq.
    cbn [String.length] in Hlen.
    destruct (IH c) as [-> ->]; [lia | exact Heq|]. split; reflexivity.
Qed.

Lemma canonical_length (s : string) :
  canonical_text s -> String.length s = 36.
Proof.
  intros (g1 & g2 & g3 & g4 & g5 & [L1 _] & [L2 _] & [L3 _] & [L4 _]
          & [L5 _] & ->).
  rewrite !append_length, L1, L2, L3, L4, L5. reflexivity.
Qed.

(** A canonical text is the formatting of the bytes it decodes to. *)
Lemma canonical_roundtrip (s : string) (bs : list byte) :
  canonical_text s ->
  hexpkg.DecodeString (strings_Replace_hyphen s) = Some bs ->
  length bs = 16
  /\ Sprintf_canonical (sub 0 4 bs) (sub 4 6 bs) (sub 6 8 bs) (sub 8 10 bs)
       (sub 10 16 bs) = s.
Proof.
  intros Hcanon Hdec.
  destruct (canonical_text_decodes s Hcanon) as (bs' & Hdec' & Hlen).
  rewrite Hdec in Hdec'. injection Hdec' as <-. split; [exact Hlen|].
  destruct Hcanon as (g1 & g2 & g3 & g4 & g5 & [L1 A1] & [L2 A2] & [L3 A3]
                      & [L4 A4] & [L5 A5] & ->).
  rewrite !Replace_hyphen_app in Hdec.
  rewrite (Replace_hyphen_lower_hex g1 A1), (Replace_hyphen_lower_hex g2 A2),
    (Replace_hyphen_lower_hex g3 A3), (Replace_hyphen_lower_hex g4 A4),
    (Replace_hyphen_lower_hex g5 A5) in Hdec.
  change (strings_Replace_hyphen "-") with EmptyString in Hdec.
  rewrite !append_Empty in Hdec.
  apply x_DecodeString in Hdec;
    [|rewrite !all_lower_hex_app, A1, A2, A3, A4, A5; reflexivity].
  rewrite <- (groups_cover bs Hlen) in Hdec. rewrite !x_app in Hdec.
  assert (Hsub : forall lo hi, hi <= 16 ->
            String.length (fmt.x (sub lo hi bs)) = 2 * (hi - lo)).
  { intros lo hi Hhi. rewrite x_length. unfold sub.
    rewrite length_firstn, length_skipn. lia. }
  apply append_inv in Hdec as [H1 Hdec]; [|rewrite Hsub, L1; lia].
  apply append_inv in Hdec as [H2 Hdec]; [|rewrite Hsub, L2; lia].
  apply append_inv in Hdec as [H3 Hdec]; [|rewrite Hsub, L3; lia].
  apply append_inv in Hdec as [H4 H5]; [|rewrite Hsub, L4; lia].
  unfold Sprintf_canonical. rewrite H1, H2, H3, H4, H5. reflexivity.
Qed.

End TextRoundTrip.

(** ** Generated identifiers *)

Section Generated.

(** The tag byte of a generated identifier, from the helper facts. *)
Lemma New_tag (newScopes : list string) (name : string) (rnd : crand) (r : Z)
    (u : UUID) :
  (0 <= r < 4)%Z ->
  New (configured newScopes) name rnd r = (Some u, None) ->
  exists i, fill newScopes 64 !! name = Some i /\ i < 64
            /\ byte_andnot (bin0 u) x03 = deref_scopes i.
Proof.
  intros Hr Hnew.
  apply New_Some in Hnew as (i & b & Hlk & Hlen & Hb0 & ->).
  exists i. pose proof (proj1 (fill_lookup _ _ _ _) Hlk) as (Hi & _).
  repeat split; [exact Hlk | exact Hi |].
  unfold bin0. cbn [bin]. rewrite Hb0. apply tag_survives_jitter; assumption.
Qed.

(** Every entry of the table, and the byte read through a pointer past it,
    has its two low bits clear. *)
Lemma jitter_survives_tag (p : nat) (r : Z) :
  (0 <= r < 4)%Z ->
  byte_and (byte_or (deref_scopes p) (byte_of_Z r)) x03 = byte_of_Z r.
Proof.
  intros Hr.
  assert (Hcases : r = 0%Z \/ r = 1%Z \/ r = 2%Z \/ r = 3%Z) by lia.
  do 64 (destruct p as [|p];
    [destruct Hcases as [->|[->|[->| ->]]]; reflexivity|]).
  unfold deref_scopes. rewrite nth_overflow by (rewrite scopes_length; lia).
  destruct Hcases as [->|[->|[->| ->]]]; reflexivity.
Qed.

(** X1.  Whatever the registry, an identifier that [New] returns carries
    the scope it was asked for, sixteen bytes, and a text that is canonical
    (36 characters of the 8-4-4-4-12 grammar), is the formatting of those
    bytes and decodes to them. *)
Theorem New_identifier_wellformed (setScopes : registry) (name : string)
    (rnd : crand) (r : Z) (u : UUID) :
  New setScopes name rnd r = (Some u, None) ->
  scope u = name
  /\ length (bin u) = 16
  /\ canonical_text (hex u)
  /\ String.length (hex u) = 36
  /\ hex u = Sprintf_canonical (sub 0 4 (bin u)) (sub 4 6 (bin u))
               (sub 6 8 (bin u)) (sub 8 10 (bin u)) (sub 10 16 (bin u))
  /\ hexpkg.DecodeString (strings_Replace_hyphen (hex u)) = Some (bin u).
Proof.
  intros Hnew.
  apply New_Some in Hnew as (p & b & _ & Hlen & _ & ->).
  cbn [scope bin hex].
  pose proof (canonical_of_array b Hlen) as Hcanon.
  repeat split; try assumption.
  - apply canonical_length, Hcanon.
  - apply readScope_decodes, Hlen.
Qed.

(** X2.  After configuration, and the random source not failing, [New]
    returns an identifier exactly for the names that some slot of the
    configuration array holds, and returns [ErrorMissingScope] exactly for
    the others. *)
Theorem New_succeeds_iff_named (newScopes : list string) (name : string)
    (rnd : crand) (r : Z) :
  crand_err rnd = None ->
  ((exists u, New (configured newScopes) name rnd r = (Some u, None))
   <-> exists i, i < 64 /\ at64 newScopes i = name)
  /\ (New (configured newScopes) name rnd r = (None, Some ErrorMissingScope)
      <-> forall i, i < 64 -> at64 newScopes i <> name).
Proof.
  intros Herr.
  destruct (fill newScopes 64 !! name) as [p|] eqn:Hlk.
  - pose proof (proj1 (fill_lookup _ _ _ _) Hlk) as (Hp & Hname & _).
    destruct (New_registered (configured newScopes) name rnd r p Hlk Herr)
      as (u & Hu & _).
    split; split.
    + intros _. eauto.
    + intros _. eauto.
    + rewrite Hu. discriminate.
    + intros Hnone. exfalso. exact (Hnone p Hp Hname).
  - pose proof (New_unregistered (configured newScopes) name rnd r Hlk) as Hu.
    assert (Hnone : forall i, i < 64 -> at64 newScopes i <> name).
    { intros i Hi Hname. pose proof (fill_bound newScopes 64 i Hi) as [x Hx].
      rewrite Hname in Hx. rewrite Hx in Hlk. discriminate Hlk. }
    split; split.
    + intros [u Hsome]. rewrite Hu in Hsome. discriminate Hsome.
    + intros (i & Hi & Hname). exfalso. exact (Hnone i Hi Hname).
    + intros _. exact Hnone.
    + intros _. exact Hu.
Qed.

(** X3.  [New] replaces byte 0 only: bytes 1 to 15 are the ones
    [crand.Read] stored, and the two low bits of byte 0 are the value of
    [mrand.Intn(4)]. *)
Theorem New_keeps_entropy (setScopes : registry) (name : string) (rnd : crand)
    (r : Z) (u : UUID) :
  length (crand_bytes rnd) = 16 -> (0 <= r < 4)%Z ->
  New setScopes name rnd r = (Some u, None) ->
  skipn 1 (bin u) = skipn 1 (crand_bytes rnd)
  /\ byte_and (bin0 u) x03 = byte_of_Z r.
Proof.
  intros Hlen Hr. unfold New, crand_Read.
  destruct (registry_lookup setScopes name) as [p|]; [|discriminate].
  destruct (crand_err rnd); [discriminate|].
  rewrite copy_full by (rewrite Hlen; reflexivity).
  destruct (crand_bytes rnd) as [|b0 b]; [discriminate Hlen|].
  intros [= <-]. unfold bin0. cbn [bin nth skipn].
  split; [reflexivity|]. apply jitter_survives_tag, Hr.
Qed.

(** X4.  Identifiers generated for two different scopes differ in their
    six tag bits, hence in their bytes and in their text. *)
Theorem New_scopes_disjoint (newScopes : list string) (name1 name2 : string)
    (rnd1 rnd2 : crand) (r1 r2 : Z) (u1 u2 : UUID) :
  name1 <> name2 -> (0 <= r1 < 4)%Z -> (0 <= r2 < 4)%Z ->
  New (configured newScopes) name1 rnd1 r1 = (Some u1, None) ->
  New (configured newScopes) name2 rnd2 r2 = (Some u2, None) ->
  byte_and (bin0 u1) xfc <> byte_and (bin0 u2) xfc
  /\ bin u1 <> bin u2
  /\ hex u1 <> hex u2.
Proof.
  intros Hne Hr1 Hr2 Hnew1 Hnew2.
  destruct (New_tag _ _ _ _ _ Hr1 Hnew1) as (i1 & Hlk1 & Hi1 & Htag1).
  destruct (New_tag _ _ _ _ _ Hr2 Hnew2) as (i2 & Hlk2 & Hi2 & Htag2).
  assert (Htags : byte_and (bin0 u1) xfc <> byte_and (bin0 u2) xfc).
  { rewrite !byte_and_fc_andnot_03, Htag1, Htag2. intros Heq.
    apply deref_scopes_inj in Heq; [|assumption..]. subst i2.
    exact (Hne (fill_inj _ _ _ _ _ Hlk1 Hlk2)). }
  assert (Hbins : bin u1 <> bin u2).
  { intros Heq. apply Htags. unfold bin0. rewrite Heq. reflexivity. }
  repeat split; [exact Htags | exact Hbins |].
  intros Heq. apply Hbins.
  apply New_Some in Hnew1 as (p1 & b1 & _ & Hlen1 & _ & ->).
  apply New_Some in Hnew2 as (p2 & b2 & _ & Hlen2 & _ & ->).
  cbn [hex bin] in *.
  pose proof (readScope_decodes b1 Hlen1) as Hd1.
  pose proof (readScope_decodes b2 Hlen2) as Hd2.
  rewrite Heq in Hd1. rewrite Hd1 in Hd2. injection Hd2 as ->. reflexivity.
Qed.

End Generated.

(** ** Parsed identifiers *)

Section Parsed.

Lemma range_find_Some (tmpByte : byte) (entries : list (string * nat))
    (name : string) :
  range_find tmpByte entries = Some name ->
  exists i, In (name, i) entries /\ deref_scopes i = tmpByte.
Proof.
  unfold range_find.
  destruct (find _ entries) as [[name' i]|] eqn:Hfind; [|discriminate].
  intros [= <-]. apply find_some in Hfind as [Hin Heq].
  apply Byte.byte_dec_bl in Heq. cbn [snd] in Heq. eauto.
Qed.

Lemma range_find_None (tmpByte : byte) (entries : list (string * nat))
    (name : string) (i : nat) :
  range_find tmpByte entries = None -> In (name, i) entries ->
  deref_scopes i <> tmpByte.
Proof.
  unfold range_find.
  destruct (find _ entries) as [e|] eqn:Hfind; [discriminate|].
  intros _ Hin Heq. apply (find_none _ _ Hfind) in Hin. cbn [snd] in Hin.
  rewrite Heq in Hin. exact (Byte.eqb_false Hin eq_refl).
Qed.

(** [readScope] on a struct that holds a canonical text: the bytes are the
    decoded ones, and the scope is the name found for their tag, or the one
    the struct had. *)
Lemma readScope_canonical (setScopes : registry) (input sc : string)
    (bs bn : list byte) :
  canonical_text input ->
  hexpkg.DecodeString (strings_Replace_hyphen input) = Some bs ->
  length bn = 16 ->
  readScope setScopes (mkUUID sc input bn)
  = match setScopes with
    | None => (mkUUID sc input bs, Some ErrorMissingScope)
    | Some m =>
        let sc' :=
          match range_find (byte_andnot (nth 0 bs x00) x03) (map_to_list m) with
          | Some name => name
          | None => sc
          end in
        (mkUUID sc' input bs,
         if String.eqb sc' EmptyString then Some ErrorBadScope else None)
    end.
Proof.
  intros Hcanon Hdec Hbn.
  destruct (canonical_roundtrip input bs Hcanon Hdec) as [Hlen _].
  unfold readScope. cbn [hex bin scope]. rewrite Hdec.
  rewrite copy_full by congruence. unfold bin0. cbn [bin hex scope].
  destruct setScopes as [m|]; [|reflexivity].
  cbn zeta.
  destruct (range_find _ (map_to_list m)) as [name|]; cbn [scope];
    match goal with |- context [String.eqb ?a ?b] => destruct (String.eqb a b) end;
    reflexivity.
Qed.

(** What a successful [Read] returned. *)
Lemma Read_Some (setScopes : registry) (input : string) (u : UUID) :
  Read setScopes input = (Some u, None) ->
  hex u = input
  /\ canonical_text input
  /\ length (bin u) = 16
  /\ Sprintf_canonical (sub 0 4 (bin u)) (sub 4 6 (bin u)) (sub 6 8 (bin u))
       (sub 8 10 (bin u)) (sub 10 16 (bin u)) = input
  /\ scope u <> EmptyString
  /\ exists i, registry_lookup setScopes (scope u) = Some i
               /\ byte_and (bin0 u) xfc = deref_scopes i.
Proof.
  unfold Read.
  destruct (regexp.MatchString canonical_re input) eqn:Hm; [|discriminate].
  apply MatchString_canonical in Hm. cbn [negb].
  destruct (canonical_text_decodes input Hm) as (bs & Hdec & Hlen).
  rewrite (readScope_canonical setScopes input (scope zeroUUID) bs
             (bin zeroUUID) Hm Hdec eq_refl).
  destruct setScopes as [m|]; [|discriminate].
  cbn zeta.
  destruct (range_find _ (map_to_list m)) as [name|] eqn:Hfind;
    [|cbn; discriminate].
  destruct (String.eqb_spec name EmptyString) as [->|Hne]; [discriminate|].
  intros [= <-]. cbn [hex bin scope].
  destruct (canonical_roundtrip input bs Hm Hdec) as [_ Hfmt].
  repeat split; try assumption.
  apply range_find_Some in Hfind as (i & Hin & Htag).
  exists i. split.
  - cbn [registry_lookup]. apply elem_of_map_to_list, list_elem_of_In, Hin.
  - unfold bin0. cbn [bin]. rewrite byte_and_fc_andnot_03. symmetry. exact Htag.
Qed.

(** X5.  Whatever the registry holds, an identifier that [Read] returns
    has the input as its text, the input is canonical and is the formatting
    of the identifier's sixteen bytes, the scope is not empty, and the
    registry binds the scope to the tag in [bin[0] & 0xFC]. *)
Theorem Read_identifier_wellformed (setScopes : registry) (input : string)
    (u : UUID) :
  Read setScopes input = (Some u, None) ->
  hex u = input
  /\ canonical_text input
  /\ length (bin u) = 16
  /\ Sprintf_canonical (sub 0 4 (bin u)) (sub 4 6 (bin u)) (sub 6 8 (bin u))
       (sub 8 10 (bin u)) (sub 10 16 (bin u)) = input
  /\ scope u <> EmptyString
  /\ exists i, registry_lookup setScopes (scope u) = Some i
               /\ byte_and (bin0 u) xfc = deref_scopes i.
Proof. apply Read_Some. Qed.

(** X6.  After configuration, [Read] of a canonical text succeeds exactly
    when the tag of the first decoded byte is bound to a non-empty name,
    and then returns that name, the text and the decoded bytes; in every
    other case (the tag bound to no name, or to the empty string) it
    returns [ErrorBadScope]. *)
Theorem Read_succeeds_iff_tag_named (newScopes : list string) (input : string)
    (bs : list byte) :
  canonical_text input ->
  hexpkg.DecodeString (strings_Replace_hyphen input) = Some bs ->
  (exists name i,
     name <> EmptyString
     /\ registry_lookup (configured newScopes) name = Some i
     /\ byte_and (nth 0 bs x00) xfc = deref_scopes i
     /\ Read (configured newScopes) input = (Some (mkUUID name input bs), None))
  \/ ((forall name i,
         registry_lookup (configured newScopes) name = Some i ->
         byte_and (nth 0 bs x00) xfc = deref_scopes i -> name = EmptyString)
      /\ Read (configured newScopes) input = (None, Some ErrorBadScope)).
Proof.
  intros Hcanon Hdec. unfold Read.
  rewrite (proj2 (MatchString_canonical input) Hcanon). cbn [negb].
  rewrite (readScope_canonical _ input (scope zeroUUID) bs (bin zeroUUID)
             Hcanon Hdec eq_refl).
  unfold configured, SetScopes. cbn [fst registry_lookup]. cbn zeta.
  rewrite byte_and_fc_andnot_03.
  destruct (range_find _ (map_to_list (fill newScopes 64))) as [name|] eqn:Hfind.
  - apply range_find_Some in Hfind as (i & Hin & Htag).
    apply list_elem_of_In, elem_of_map_to_list in Hin.
    destruct (String.eqb_spec name EmptyString) as [->|Hne].
    + right. split; [|reflexivity].
      intros name' i' Hlk' Htag'. rewrite <- Htag in Htag'.
      pose proof (proj1 (fill_lookup _ _ _ _) Hin) as (Hi & _).
      pose proof (proj1 (fill_lookup _ _ _ _) Hlk') as (Hi' & _).
      symmetry in Htag'. apply deref_scopes_inj in Htag'; [|assumption..].
      subst i'. exact (fill_inj _ _ _ _ _ Hlk' Hin).
    + left. exists name, i. repeat split; auto.
  - right. split; [|reflexivity].
    intros name i Hlk Htag. exfalso.
    apply (range_find_None _ _ name i Hfind).
    + apply list_elem_of_In, elem_of_map_to_list, Hlk.
    + symmetry. exact Htag.
Qed.

End Parsed.

(** ** Scanned identifiers *)

Section Scanned.

Lemma sub_firstn (lo hi : nat) (l : list byte) :
  hi <= 16 -> sub lo hi (firstn 16 l) = sub lo hi l.
Proof.
  intros Hhi. unfold sub.
  rewrite skipn_firstn_comm, firstn_firstn. f_equal. lia.
Qed.

(** [Scan] on a byte slice of capacity 16 or more, into a struct: the text
    and the bytes are those of the first 16 elements of the backing array,
    the scope is the name found for their tag or else the one the struct
    had, and the error is the one of [readScope]. *)
Lemma Scan_normal_form (setScopes : registry) (recv : UUID) (s : slice) :
  16 <= cap s -> length (bin recv) = 16 ->
  let b := firstn 16 (backing s) in
  let h := Sprintf_canonical (sub 0 4 b) (sub 4 6 b) (sub 6 8 b) (sub 8 10 b)
             (sub 10 16 b) in
  Scan setScopes (Some recv) (VBytes s)
  = Returns
      match setScopes with
      | None => (Some (mkUUID (scope recv) h b), Some ErrorMissingScope)
      | Some m =>
          let sc' :=
            match range_find (byte_andnot (nth 0 b x00) x03) (map_to_list m) with
            | Some name => name
            | None => scope recv
            end in
          (Some (mkUUID sc' h b),
           if String.eqb sc' EmptyString then Some ErrorBadScope else None)
      end.
Proof.
  intros Hcap Hrecv b h.
  assert (Hb : length b = 16).
  { subst b. rewrite length_firstn. unfold cap in Hcap. lia. }
  rewrite Scan_bytes. rewrite (proj2 (Nat.ltb_ge _ _) Hcap). cbn zeta.
  rewrite <- !(sub_firstn _ _ (backing s)) by lia. fold b. fold h.
  rewrite (readScope_canonical setScopes h (scope recv) b (bin recv)
             (canonical_of_array b Hb) (readScope_decodes b Hb) Hrecv).
  destruct setScopes as [m|]; reflexivity.
Qed.

(** X7.  The binary round trip: [Scan] of the sixteen bytes of an
    identifier that [New] generated for a non-empty scope, into any struct,
    leaves the struct equal to the identifier and returns nil. *)
Theorem Scan_New_roundtrip (newScopes : list string) (name : string)
    (rnd : crand) (r : Z) (u recv : UUID) :
  name <> EmptyString -> (0 <= r < 4)%Z -> length (bin recv) = 16 ->
  New (configured newScopes) name rnd r = (Some u, None) ->
  Scan (configured newScopes) (Some recv) (VBytes (slice_of (bin u)))
  = Returns (Some u, None).
Proof.
  intros Hname Hr Hrecv Hnew.
  destruct (New_tag _ _ _ _ _ Hr Hnew) as (i & Hlk & Hi & Htag).
  apply New_Some in Hnew as (p & b & _ & Hlen & _ & ->).
  unfold bin0 in Htag. cbn [bin] in *.
  rewrite Scan_bytes. unfold cap, slice_of. cbn [backing].
  rewrite (proj2 (Nat.ltb_ge _ _)) by lia. cbn zeta.
  rewrite (readScope_configured newScopes b (bin recv) name (scope recv) i
             Hlen Hrecv Hlk Htag).
  apply String.eqb_neq in Hname. rewrite Hname. reflexivity.
Qed.

(** X8.  The two decoders agree: for sixteen bytes and any registry,
    [Read] of their text returns an identifier exactly when [Scan] of the
    bytes into a zero struct succeeds, and it is the same identifier. *)
Theorem Scan_agrees_with_Read (setScopes : registry) (b : list byte) (u : UUID) :
  length b = 16 ->
  Read setScopes
    (Sprintf_canonical (sub 0 4 b) (sub 4 6 b) (sub 6 8 b) (sub 8 10 b)
       (sub 10 16 b)) = (Some u, None)
  <-> Scan setScopes (Some zeroUUID) (VBytes (slice_of b))
      = Returns (Some u, None).
Proof.
  intros Hb.
  rewrite Scan_bytes. unfold cap, slice_of. cbn [backing].
  rewrite (proj2 (Nat.ltb_ge _ _)) by lia. cbn zeta.
  unfold Read.
  rewrite (proj2 (MatchString_canonical _) (canonical_of_array b Hb)).
  cbn [negb].
  destruct (readScope setScopes _) as [u' [e|]]; cbn [fst snd].
  - split; intros H; discriminate H.
  - split; intros [= <-]; reflexivity.
Qed.

(** X9.  [Scan] into a struct that already has a scope: when the tag of
    the bytes is bound to no name, the loop of [readScope] leaves the old
    scope in place, so [Scan] returns nil and the struct holds the new
    bytes and text under the old scope. *)
Theorem Scan_keeps_stale_scope (newScopes : list string) (recv : UUID)
    (b : list byte) :
  length b = 16 -> length (bin recv) = 16 -> scope recv <> EmptyString ->
  (forall name i, registry_lookup (configured newScopes) name = Some i ->
                  deref_scopes i <> byte_and (nth 0 b x00) xfc) ->
  Scan (configured newScopes) (Some recv) (VBytes (slice_of b))
  = Returns
      (Some (mkUUID (scope recv)
               (Sprintf_canonical (sub 0 4 b) (sub 4 6 b) (sub 6 8 b)
                  (sub 8 10 b) (sub 10 16 b)) b),
       None).
Proof.
  intros Hb Hrecv Hscope Hunbound.
  rewrite Scan_normal_form by (unfold cap, slice_of; cbn [backing]; lia || exact Hrecv).
  unfold slice_of. cbn [backing]. rewrite firstn_all2 by lia.
  unfold configured, SetScopes. cbn [fst]. cbn zeta.
  rewrite (range_find_miss newScopes).
  - apply String.eqb_neq in Hscope. rewrite Hscope. reflexivity.
  - reflexivity.
  - intros name i Hlk. rewrite <- byte_and_fc_andnot_03.
    exact (Hunbound name i Hlk).
Qed.

(** X10.  [Scan] on a byte slice of capacity 16 or more overwrites the
    struct whether or not it fails: afterwards the bytes are the first 16
    of the backing array and the text is their canonical formatting.  The
    error is nil, [ErrorMissingScope] or [ErrorBadScope], never
    [ErrorBadString], and it is [ErrorMissingScope] exactly when the
    registry was never configured. *)
Theorem Scan_overwrites_struct (setScopes : registry) (recv : UUID) (s : slice) :
  16 <= cap s -> length (bin recv) = 16 ->
  exists u err,
    Scan setScopes (Some recv) (VBytes s) = Returns (Some u, err)
    /\ bin u = firstn 16 (backing s)
    /\ hex u = Sprintf_canonical (sub 0 4 (bin u)) (sub 4 6 (bin u))
                 (sub 6 8 (bin u)) (sub 8 10 (bin u)) (sub 10 16 (bin u))
    /\ canonical_text (hex u)
    /\ (err = None \/ err = Some ErrorMissingScope \/ err = Some ErrorBadScope)
    /\ (err = Some ErrorMissingScope <-> setScopes = None).
Proof.
  intros Hcap Hrecv.
  assert (Hb : length (firstn 16 (backing s)) = 16).
  { rewrite length_firstn. unfold cap in Hcap. lia. }
  rewrite Scan_normal_form by assumption. cbn zeta.
  destruct setScopes as [m|].
  - eexists _, _. split; [reflexivity|]. cbn [bin hex].
    repeat split; try (apply canonical_of_array, Hb); try discriminate.
    + match goal with |- context [String.eqb ?a ?b] => destruct (String.eqb a b) end;
        auto.
    + match goal with |- context [String.eqb ?a ?b] => destruct (String.eqb a b) end;
        discriminate.
  - eexists _, _. split; [reflexivity|]. cbn [bin hex].
    repeat split; try (apply canonical_of_array, Hb); auto.
Qed.

End Scanned.

(** ** [Value], [ScopeMatches], [SetScopes] and [Scopes] *)

Section Rest.

(** X11.  [Value] returns the canonical text, and no error, for every
    identifier that [New] or [Read] returned and for every struct that
    [Scan] filled from a byte slice of capacity 16 or more. *)
Theorem Value_of_identifier (setScopes : registry) (u : UUID) :
  (exists name rnd r, New setScopes name rnd r = (Some u, None))
  \/ (exists input, Read setScopes input = (Some u, None))
  \/ (exists recv s err,
        16 <= cap s /\ length (bin recv) = 16
        /\ Scan setScopes (Some recv) (VBytes s) = Returns (Some u, err)) ->
  Value u = (VString (hex u), None) /\ canonical_text (hex u).
Proof.
  intros Hfrom.
  assert (Hcanon : canonical_text (hex u)).
  { destruct Hfrom as [(name & rnd & r & Hnew)|[(input & Hread)
                      |(recv & s & err & Hcap & Hrecv & Hscan)]].
    - apply New_Some in Hnew as (p & b & _ & Hlen & _ & ->).
      apply canonical_of_array, Hlen.
    - apply Read_Some in Hread as (-> & Hcanon & _). exact Hcanon.
    - assert (Hb : length (firstn 16 (backing s)) = 16).
      { rewrite length_firstn. unfold cap in Hcap. lia. }
      rewrite Scan_normal_form in Hscan by assumption. cbn zeta in Hscan.
      destruct setScopes as [m|]; injection Hscan as <- _;
        apply canonical_of_array, Hb. }
  split; [|exact Hcanon].
  unfold Value. rewrite (canonical_length _ Hcanon). reflexivity.
Qed.

(** X12.  On a pointer to a struct [ScopeMatches] is the membership test:
    it returns [true] exactly when the scope is an element of the list and
    [false] exactly when it is not, and it never panics. *)
Theorem ScopeMatches_membership (u : UUID) (cs : list string) :
  (ScopeMatches (Some u) cs = Returns true <-> In (scope u) cs)
  /\ (ScopeMatches (Some u) cs = Returns false <-> ~ In (scope u) cs).
Proof.
  rewrite ScopeMatches_Some, <- list_elem_of_In.
  destruct (decide (scope u ∈ cs)) as [Hin|Hout].
  - rewrite bool_decide_eq_true_2 by exact Hin.
    split; split; try tauto; try discriminate.
  - rewrite bool_decide_eq_false_2 by exact Hout.
    split; split; try tauto; try discriminate.
Qed.

(** X13.  An identifier that [New] or [Read] returned after configuration
    matches the configuration array taken as a slice. *)
Theorem ScopeMatches_configured_names (newScopes : list string) (u : UUID) :
  (exists name rnd r, New (configured newScopes) name rnd r = (Some u, None))
  \/ (exists input, Read (configured newScopes) input = (Some u, None)) ->
  ScopeMatches (Some u) (map (at64 newScopes) (seq 0 64)) = Returns true.
Proof.
  intros Hfrom.
  assert (Hlk : exists i, fill newScopes 64 !! scope u = Some i).
  { destruct Hfrom as [(name & rnd & r & Hnew)|(input & Hread)].
    - apply New_Some in Hnew as (p & b & Hlk & _ & _ & ->). eauto.
    - apply Read_Some in Hread as (_ & _ & _ & _ & _ & i & Hlk & _). eauto. }
  destruct Hlk as (i & Hlk).
  apply fill_lookup in Hlk as (Hi & Hname & _).
  rewrite ScopeMatches_Some. f_equal. apply bool_decide_eq_true_2.
  apply list_elem_of_In, in_map_iff. exists i. split; [exact Hname|].
  apply in_seq. lia.
Qed.

Lemma fill_size (newScopes : list string) (n : nat) :
  size (fill newScopes n) <= n.
Proof.
  induction n as [|n IH]; [reflexivity|].
  rewrite fill_S.
  destruct (fill newScopes n !! at64 newScopes n) as [x|] eqn:Hlk.
  - rewrite map_size_insert_Some by eauto. lia.
  - rewrite map_size_insert_None by exact Hlk. lia.
Qed.

(** X14.  The map that [SetScopes] installs binds exactly the names held
    by the 64 slots, at most 64 of them, no two to the same tag; the tag of
    slot [i] is bound exactly when no later slot repeats the name of slot
    [i]. *)
Theorem SetScopes_binds_slot_names (newScopes : list string) :
  (forall name,
     is_Some (registry_lookup (configured newScopes) name)
     <-> exists i, i < 64 /\ at64 newScopes i = name)
  /\ (forall name1 name2 i,
        registry_lookup (configured newScopes) name1 = Some i ->
        registry_lookup (configured newScopes) name2 = Some i ->
        name1 = name2)
  /\ (forall i, i < 64 ->
        (exists name, registry_lookup (configured newScopes) name = Some i)
        <-> forall j, i < j < 64 -> at64 newScopes j <> at64 newScopes i)
  /\ size (fill newScopes 64) <= 64.
Proof.
  unfold configured, SetScopes. cbn [fst registry_lookup].
  split; [|split; [|split]].
  - intros name. split.
    + intros [i Hlk]. apply fill_lookup in Hlk as (Hi & Hname & _). eauto.
    + intros (i & Hi & <-). apply fill_bound, Hi.
  - intros name1 name2 i. apply fill_inj.
  - intros i Hi. split.
    + intros [name Hlk]. apply fill_lookup in Hlk as (_ & <- & Hlast).
      exact Hlast.
    + intros Hlast. exists (at64 newScopes i). apply fill_lookup. auto.
  - apply fill_size.
Qed.

End Rest.

(** ** [Scopes] *)

Section ScopesFacts.

(** The loop of [Scopes] stores the names one after the other and does not
    run past the array as long as they fit. *)
Lemma Scopes_walk_fits (names acc : list string) (index : nat) :
  length acc = 64 -> index + length names <= 64 ->
  Scopes_walk names acc index
  = Some (firstn index acc ++ names ++ skipn (index + length names) acc).
Proof.
  revert acc index. induction names as [|x names IH]; intros acc index Hacc Hfit.
  - cbn [Scopes_walk length app]. rewrite Nat.add_0_r, firstn_skipn.
    reflexivity.
  - cbn [length] in Hfit. cbn [Scopes_walk].
    rewrite (proj2 (Nat.ltb_lt _ _)) by lia.
    rewrite IH by (rewrite ?length_insert; lia).
    f_equal.
    rewrite (take_S_r _ _ x) by (apply list_lookup_insert_eq; lia).
    rewrite take_insert_ge by lia.
    rewrite drop_insert_lt by lia.
    rewrite <- app_assoc. cbn [app length].
    replace (S index + length names) with (index + S (length names)) by lia.
    reflexivity.
Qed.

Lemma skipn_repeat_string (n m : nat) :
  skipn n (repeat EmptyString m) = repeat EmptyString (m - n).
Proof.
  revert m. induction n as [|n IH]; intros m.
  - rewrite Nat.sub_0_r. reflexivity.
  - destruct m as [|m]; [reflexivity|]. cbn [repeat skipn Nat.sub]. apply IH.
Qed.

(** X15.  After configuration, and in whatever order the map is walked,
    [Scopes] does not run past its array and returns 64 strings: the bound
    names in the order walked, then empty strings.  Every name of the
    configuration array is among them, every non-empty string among them is
    a name of the array, and when the 64 names are distinct the result is a
    rearrangement of the array. *)
Theorem Scopes_lists_names (newScopes : list string)
    (entries : list (string * nat)) :
  entries ≡ₚ map_to_list (fill newScopes 64) ->
  exists l,
    Scopes_in entries = Some l
    /\ length l = 64
    /\ l = map fst entries ++ repeat EmptyString (64 - length entries)
    /\ (forall i, i < 64 -> In (at64 newScopes i) l)
    /\ (forall name, name <> EmptyString -> In name l ->
          exists i, i < 64 /\ at64 newScopes i = name)
    /\ (length newScopes = 64 -> NoDup newScopes -> l ≡ₚ newScopes).
Proof.
  intros Hperm.
  assert (Hsize : length entries <= 64).
  { rewrite Hperm, length_map_to_list. apply fill_size. }
  assert (Hkeys : forall name,
            In name (map fst entries) <-> is_Some (fill newScopes 64 !! name)).
  { intros name. rewrite in_map_iff. split.
    - intros ([name' i] & <- & Hin). cbn [fst].
      apply list_elem_of_In in Hin. rewrite Hperm in Hin.
      apply elem_of_map_to_list in Hin. eauto.
    - intros [i Hlk]. exists (name, i). split; [reflexivity|].
      apply list_elem_of_In. rewrite Hperm. apply elem_of_map_to_list, Hlk. }
  eexists. split; [|split; [|split; [reflexivity|split; [|split]]]].
  - unfold Scopes_in.
    rewrite Scopes_walk_fits
      by (rewrite ?length_map, ?repeat_length; cbn; lia).
    cbn [firstn app Nat.add]. rewrite length_map.
    rewrite skipn_repeat_string. reflexivity.
  - rewrite length_app, length_map, repeat_length. lia.
  - intros i Hi. apply in_or_app. left. apply Hkeys, fill_bound, Hi.
  - intros name Hne Hin. apply in_app_or in Hin as [Hin|Hin].
    + apply Hkeys in Hin as [i Hlk].
      apply fill_lookup in Hlk as (Hi & Hname & _). eauto.
    + apply repeat_spec in Hin. congruence.
  - intros Hlen Hnd.
    assert (Hkeys_nd : NoDup (map fst entries)).
    { rewrite Hperm. apply NoDup_fst_map_to_list. }
    assert (Hsame : map fst entries ≡ₚ newScopes).
    { apply NoDup_Permutation; [exact Hkeys_nd | exact Hnd |].
      intros name. rewrite !list_elem_of_In, Hkeys. split.
      - intros [i Hlk]. apply fill_lookup in Hlk as (Hi & <- & _).
        apply nth_In. lia.
      - intros Hin. apply (In_nth _ _ EmptyString) in Hin as (i & Hi & <-).
        apply (fill_bound newScopes 64 i). lia. }
    assert (Hfull : length entries = 64).
    { rewrite <- (length_map fst entries), Hsame. exact Hlen. }
    rewrite Hfull. cbn [Nat.sub repeat]. rewrite app_nil_r. exact Hsame.
Qed.

End ScopesFacts.

(** ** The properties above at the package's test configuration *)

Lemma canonical_five_text : canonical_text five_text.
Proof. apply MatchString_canonical. reflexivity. Qed.

(** A tag is bound to no name when no entry of the map carries it. *)
Lemma unbound_by_walk (newScopes : list string) (tag : byte) :
  forallb (fun e => negb (Byte.eqb (deref_scopes (snd e)) tag))
    (map_to_list (fill newScopes 64)) = true ->
  forall name i,
    registry_lookup (configured newScopes) name = Some i ->
    deref_scopes i <> tag.
Proof.
  intros Hall name i Hlk Heq.
  rewrite forallb_forall in Hall.
  specialize (Hall (name, i)). cbn [snd] in Hall.
  rewrite Heq in Hall.
  rewrite (Byte.byte_dec_lb eq_refl) in Hall.
  discriminate Hall.
  apply list_elem_of_In, elem_of_map_to_list. exact Hlk.
Qed.

Lemma New_identifier_wellformed_witness :
  scope uuid_five = "five"
  /\ length (bin uuid_five) = 16
  /\ canonical_text (hex uuid_five)
  /\ String.length (hex uuid_five) = 36
  /\ hex uuid_five
     = Sprintf_canonical (sub 0 4 (bin uuid_five)) (sub 4 6 (bin uuid_five))
         (sub 6 8 (bin uuid_five)) (sub 8 10 (bin uuid_five))
         (sub 10 16 (bin uuid_five))
  /\ hexpkg.DecodeString (strings_Replace_hyphen (hex uuid_five))
     = Some (bin uuid_five).
Proof.
  apply (New_identifier_wellformed (configured myScopes) "five" zero_rnd 3).
  reflexivity.
Defined.

Lemma New_succeeds_iff_named_witness :
  ((exists u, New (configured myScopes) "five" zero_rnd 3 = (Some u, None))
   <-> exists i, i < 64 /\ at64 myScopes i = "five")
  /\ (New (configured myScopes) "five" zero_rnd 3 = (None, Some ErrorMissingScope)
      <-> forall i, i < 64 -> at64 myScopes i <> "five").
Proof.
  apply (New_succeeds_iff_named myScopes "five" zero_rnd 3). reflexivity.
Defined.

Lemma New_keeps_entropy_witness :
  skipn 1 (bin uuid_five) = skipn 1 (crand_bytes zero_rnd)
  /\ byte_and (bin0 uuid_five) x03 = byte_of_Z 3.
Proof.
  apply (New_keeps_entropy (configured myScopes) "five" zero_rnd 3 uuid_five);
    [reflexivity | lia | reflexivity].
Defined.

Lemma New_scopes_disjoint_witness :
  byte_and (bin0 uuid_one) xfc <> byte_and (bin0 uuid_five) xfc
  /\ bin uuid_one <> bin uuid_five
  /\ hex uuid_one <> hex uuid_five.
Proof.
  apply (New_scopes_disjoint myScopes "one" "five" zero_rnd zero_rnd 0 3);
    [discriminate | lia | lia | reflexivity | reflexivity].
Defined.

Lemma Read_identifier_wellformed_witness :
  hex uuid_five = five_text
  /\ canonical_text five_text
  /\ length (bin uuid_five) = 16
  /\ Sprintf_canonical (sub 0 4 (bin uuid_five)) (sub 4 6 (bin uuid_five))
       (sub 6 8 (bin uuid_five)) (sub 8 10 (bin uuid_five))
       (sub 10 16 (bin uuid_five)) = five_text
  /\ scope uuid_five <> EmptyString
  /\ exists i, registry_lookup (configured myScopes) (scope uuid_five) = Some i
               /\ byte_and (bin0 uuid_five) xfc = deref_scopes i.
Proof.
  apply (Read_identifier_wellformed (configured myScopes) five_text uuid_five).
  reflexivity.
Defined.

Lemma Read_succeeds_iff_tag_named_witness :
  (exists name i,
     name <> EmptyString
     /\ registry_lookup (configured myScopes) name = Some i
     /\ byte_and (nth 0 (bin uuid_five) x00) xfc = deref_scopes i
     /\ Read (configured myScopes) five_text
        = (Some (mkUUID name five_text (bin uuid_five)), None))
  \/ ((forall name i,
         registry_lookup (configured myScopes) name = Some i ->
         byte_and (nth 0 (bin uuid_five) x00) xfc = deref_scopes i ->
         name = EmptyString)
      /\ Read (configured myScopes) five_text = (None, Some ErrorBadScope)).
Proof.
  apply (Read_succeeds_iff_tag_named myScopes five_text (bin uuid_five));
    [exact canonical_five_text | reflexivity].
Defined.

Lemma Scan_New_roundtrip_witness :
  Scan (configured myScopes) (Some zeroUUID) (VBytes (slice_of (bin uuid_five)))
  = Returns (Some uuid_five, None).
Proof.
  apply (Scan_New_roundtrip myScopes "five" zero_rnd 3 uuid_five zeroUUID);
    [discriminate | lia | reflexivity | reflexivity].
Defined.

Lemma Scan_agrees_with_Read_witness :
  Read (configured myScopes)
    (Sprintf_canonical (sub 0 4 (bin uuid_five)) (sub 4 6 (bin uuid_five))
       (sub 6 8 (bin uuid_five)) (sub 8 10 (bin uuid_five))
       (sub 10 16 (bin uuid_five))) = (Some uuid_five, None)
  <-> Scan (configured myScopes) (Some zeroUUID)
        (VBytes (slice_of (bin uuid_five)))
      = Returns (Some uuid_five, None).
Proof.
  apply (Scan_agrees_with_Read (configured myScopes) (bin uuid_five) uuid_five).
  reflexivity.
Defined.

Lemma Scan_keeps_stale_scope_witness :
  Scan (configured myScopes) (Some uuid_five) (VBytes (slice_of unbound_bytes))
  = Returns
      (Some (mkUUID "five" "20000000-0000-0000-0000-000000000000" unbound_bytes),
       None).
Proof.
  apply (Scan_keeps_stale_scope myScopes uuid_five unbound_bytes);
    [reflexivity | reflexivity | discriminate |].
  apply unbound_by_walk. vm_compute. reflexivity.
Defined.

Lemma Scan_overwrites_struct_witness :
  exists u err,
    Scan None (Some uuid_five) (VBytes three_of_sixteen) = Returns (Some u, err)
    /\ bin u = firstn 16 (backing three_of_sixteen)
    /\ hex u = Sprintf_canonical (sub 0 4 (bin u)) (sub 4 6 (bin u))
                 (sub 6 8 (bin u)) (sub 8 10 (bin u)) (sub 10 16 (bin u))
    /\ canonical_text (hex u)
    /\ (err = None \/ err = Some ErrorMissingScope \/ err = Some ErrorBadScope)
    /\ (err = Some ErrorMissingScope <-> None = (None : registry)).
Proof.
  apply (Scan_overwrites_struct None uuid_five three_of_sixteen);
    [vm_compute; lia | reflexivity].
Defined.

Lemma Value_of_identifier_witness :
  Value uuid_five = (VString (hex uuid_five), None)
  /\ canonical_text (hex uuid_five).
Proof.
  apply (Value_of_identifier (configured myScopes) uuid_five).
  left. exists "five", zero_rnd, 3%Z. reflexivity.
Defined.

Lemma ScopeMatches_configured_names_witness :
  ScopeMatches (Some uuid_five) (map (at64 myScopes) (seq 0 64)) = Returns true.
Proof.
  apply (ScopeMatches_configured_names myScopes uuid_five).
  left. exists "five", zero_rnd, 3%Z. reflexivity.
Defined.

Lemma Scopes_lists_names_witness :
  exists l,
    Scopes (configured myScopes) = Some l
    /\ length l = 64
    /\ l = map fst (map_to_list (fill myScopes 64))
           ++ repeat EmptyString (64 - length (map_to_list (fill myScopes 64)))
    /\ (forall i, i < 64 -> In (at64 myScopes i) l)
    /\ (forall name, name <> EmptyString -> In name l ->
          exists i, i < 64 /\ at64 myScopes i = name)
    /\ (length myScopes = 64 -> NoDup myScopes -> l ≡ₚ myScopes).
Proof.
  apply (Scopes_lists_names myScopes (map_to_list (fill myScopes 64))).
  reflexivity.
Defined.

(** ** The order in which Go walks the map *)

(** X16.  Go does not fix the order of [range] over a map, yet on a
    registry that [SetScopes] installed the loop of [readScope] finds the
    same name, or none, in every order: any two walks of the map agree. *)
Theorem readScope_walk_order_irrelevant (newScopes : list string)
    (entries1 entries2 : list (string * nat)) (tmpByte : byte) :
  entries1 ≡ₚ map_to_list (fill newScopes 64) ->
  entries2 ≡ₚ map_to_list (fill newScopes 64) ->
  range_find tmpByte entries1 = range_find tmpByte entries2.
Proof.
  intros H1 H2.
  rewrite (range_order_irrelevant newScopes entries1 tmpByte H1).
  rewrite (range_order_irrelevant newScopes entries2 tmpByte H2).
  reflexivity.
Qed.

Lemma readScope_walk_order_irrelevant_witness :
  range_find x10 (rev (map_to_list (fill myScopes 64)))
  = range_find x10 (map_to_list (fill myScopes 64)).
Proof.
  apply (readScope_walk_order_irrelevant myScopes
           (rev (map_to_list (fill myScopes 64)))
           (map_to_list (fill myScopes 64)) x10).
  - symmetry. apply Permutation_rev.
  - reflexivity.
Defined.
